(** * mcp-agent: the sliding-window rate limiter and the Kubernetes agent adapter

    A shallow embedding of
      - [src/mcp_agent/utils/rate_limiter.py]  ([AsyncRateLimiter]), and
      - [src/mcp_agent/agents/k8s_agent.py]    ([KubernetesManager], [K8sAgentAdapter]),
    followed by the properties of the design document that are stated about
    them.

    Conventions of the embedding.
      - The event-loop clock ([loop.time()]) is an exact number of clock
        ticks, a [Z]; rounding of Python floats is outside the model.
      - A Python call either returns or raises; a [while True] loop is
        unrolled with fuel, and running out of fuel is a third outcome that
        no [except] clause can catch.
      - The Kubernetes API server is the environment: it answers every
        request as a function of the requests made so far.
      - The event logger of [mcp_agent.logging.logger] is not among the
        sources.  A log call that fits the signature of its methods
        records an event; what the logger raises on a call that does not
        is left to the environment. *)

From stdpp Require Import base numbers list strings gmap.
From Stdlib Require Import ZArith Lia Sorted.

Local Open Scope Z_scope.

(** ** Python values shared by both modules *)

Module Py.

(** The exception classes the two source files raise or catch.  All of
    them derive from [Exception]. *)
Inductive exn : Type :=
| ApiException (status : Z)
| ValueError (msg : string)
| RuntimeError (msg : string)
| TimeoutError (msg : string)
| IndexError
| AttributeError
| TypeError
| OtherException (msg : string).

Inductive outcome (A : Type) : Type :=
| Returns (a : A)
| Raises (e : exn)
| OutOfFuel.

Arguments Returns {A} a.
Arguments Raises {A} e.
Arguments OutOfFuel {A}.

Definition is_raise {A} (o : outcome A) : Prop :=
  match o with Raises _ => True | _ => False end.

End Py.

Import Py.

(** ** [rate_limiter.py] *)

Module RateLimiter.

(** [asyncio.Lock]: free, or held by the task with the given number. *)
Definition Lock : Type := option nat.

Record AsyncRateLimiter : Type := mkLimiter {
  max_calls : Z;
  period : Z;
  _events : list Z;          (* deque, oldest on the left *)
  _lock : option Lock        (* None until the first acquire *)
}.

(** [AsyncRateLimiter.__init__] *)
Definition __init__ (max_calls period : Z) : outcome AsyncRateLimiter :=
  if max_calls <=? 0 then Raises (ValueError "max_calls must be positive")
  else if period <=? 0 then Raises (ValueError "period must be positive")
  else Returns {| max_calls := max_calls; period := period;
                  _events := []; _lock := None |}.

(** [while self._events and now - self._events[0] >= self.period:
       self._events.popleft()] *)
Fixpoint evict (period now : Z) (events : list Z) : list Z :=
  match events with
  | e :: rest => if now - e >=? period then evict period now rest else events
  | [] => []
  end.

Definition set_events (self : AsyncRateLimiter) (ev : list Z) : AsyncRateLimiter :=
  {| max_calls := max_calls self; period := period self;
     _events := ev; _lock := _lock self |}.

Definition set_lock (self : AsyncRateLimiter) (l : option Lock) : AsyncRateLimiter :=
  {| max_calls := max_calls self; period := period self;
     _events := _events self; _lock := l |}.

(** What the body of [async with self._lock] decides. *)
Inductive verdict : Type :=
| Granted                       (* [return] on line 45 *)
| MustWait (wait_time : Z).     (* falls out of the block to the sleep *)

(** Lines 37-47, the body of the [async with] block, run at clock value
    [now].  [self._events[0]] on line 47 raises [IndexError] on an empty
    deque. *)
Definition critical_section (now : Z) (self : AsyncRateLimiter)
  : outcome verdict * AsyncRateLimiter :=
  let ev := evict (period self) now (_events self) in
  if Z.of_nat (length ev) <? max_calls self then
    (Returns Granted, set_events self (ev ++ [now]))
  else
    match ev with
    | oldest :: _ =>
        (Returns (MustWait (period self - (now - oldest))), set_events self ev)
    | [] => (Raises IndexError, set_events self ev)
    end.

(** A schedule of critical sections: since the lock serialises them, any
    run of concurrent [acquire] calls executes the block at a sequence of
    clock readings [times].  [granted] records the clock reading of every
    acquisition that completed. *)
Fixpoint run (times : list Z) (self : AsyncRateLimiter) (granted : list Z)
  : AsyncRateLimiter * list Z :=
  match times with
  | [] => (self, granted)
  | now :: later =>
      match critical_section now self with
      | (Returns Granted, self') => run later self' (granted ++ [now])
      | (_, self') => run later self' granted
      end
  end.

(** The [while True] loop of [acquire] for a single caller with nobody
    else contending, so that taking and releasing the lock leaves it as it
    was: the clock stands at [clock], and
    [asyncio.sleep(max(wait_time, 0))] moves it on by that amount. *)
Fixpoint acquire_loop (fuel : nat) (self : AsyncRateLimiter) (clock : Z)
  : outcome unit * AsyncRateLimiter * Z :=
  match fuel with
  | O => (OutOfFuel, self, clock)
  | S fuel' =>
      let now := clock in
      match critical_section now self with
      | (Returns Granted, self') => (Returns tt, self', clock)
      | (Returns (MustWait wait_time), self') =>
          acquire_loop fuel' self' (clock + Z.max wait_time 0)
      | (Raises e, self') => (Raises e, self', clock)
      | (OutOfFuel, self') => (OutOfFuel, self', clock)
      end
  end.

(** [AsyncRateLimiter.acquire] *)
Definition acquire (fuel : nat) (self : AsyncRateLimiter) (clock : Z)
  : outcome unit * AsyncRateLimiter * Z :=
  let self := match _lock self with
              | None => set_lock self (Some None)
              | Some _ => self
              end in
  acquire_loop fuel self clock.

(** Number of completed acquisitions whose clock reading lies in the
    window [t, t + T). *)
Definition in_window (t T : Z) (granted : list Z) : nat :=
  length (filter (λ g, t ≤ g < t + T) granted).





End RateLimiter.

(** ** The tasks that share one limiter

    Every caller of [acquire] is a task with a program counter that
    follows lines 32-50 of [rate_limiter.py].  The steps of different
    tasks interleave freely and the clock moves between them.  asyncio
    runs the body of the [async with] block without suspending, so the
    real interleavings are among the ones modelled here. *)

Module LimiterTasks.
Import RateLimiter.

Inductive pc : Type :=
| AtEntry                       (* line 32, [if self._lock is None] *)
| AtLock                        (* line 36, entering [async with self._lock] *)
| InBlock                       (* line 37, lock held, body not yet run *)
| LeaveGranted                  (* line 45, [return] inside the block *)
| LeaveWait (wait_time : Z)     (* line 47 done, end of the block *)
| LeaveRaise (e : exn)          (* an exception unwinds the block *)
| Sleeping (until : Z)          (* line 50, [await asyncio.sleep(...)] *)
| Finished                      (* [acquire] has returned *)
| Failed (e : exn).             (* [acquire] has raised *)

Record system : Type := mkSystem {
  limiter : AsyncRateLimiter;
  tasks : list pc;              (* task number = position *)
  clock : Z;                    (* [loop.time()] *)
  last_now : Z;                 (* [now] of the latest run of the block *)
  granted : list Z              (* [now] of every completed append *)
}.

Definition holds_lock (p : pc) : bool :=
  match p with
  | InBlock | LeaveGranted | LeaveWait _ | LeaveRaise _ => true
  | _ => false
  end.

Definition boot (lim : AsyncRateLimiter) (start : Z) : system :=
  {| limiter := lim; tasks := []; clock := start; last_now := start;
     granted := [] |}.

Definition goto (t : nat) (p : pc) (s : system) : system :=
  {| limiter := limiter s; tasks := <[t := p]> (tasks s); clock := clock s;
     last_now := last_now s; granted := granted s |}.

Definition with_lock (l : option Lock) (s : system) : system :=
  {| limiter := set_lock (limiter s) l; tasks := tasks s; clock := clock s;
     last_now := last_now s; granted := granted s |}.

(** The outcome of the body, turned into the task's next position. *)
Definition after_block (o : outcome verdict) : pc :=
  match o with
  | Returns Granted => LeaveGranted
  | Returns (MustWait w) => LeaveWait w
  | Raises e => LeaveRaise e
  | OutOfFuel => InBlock
  end.

Definition run_block (t : nat) (s : system) : system :=
  let now := clock s in
  let '(o, lim') := critical_section now (limiter s) in
  {| limiter := lim';
     tasks := <[t := after_block o]> (tasks s);
     clock := clock s;
     last_now := now;
     granted := match o with
                | Returns Granted => granted s ++ [now]
                | _ => granted s
                end |}.

Inductive step : system -> system -> Prop :=
| step_call s :                 (* somebody calls [acquire()] *)
    step s {| limiter := limiter s; tasks := tasks s ++ [AtEntry];
              clock := clock s; last_now := last_now s;
              granted := granted s |}
| step_tick s d :               (* time passes *)
    0 ≤ d ->
    step s {| limiter := limiter s; tasks := tasks s; clock := clock s + d;
              last_now := last_now s; granted := granted s |}
| step_entry s t :              (* lines 32-33 *)
    tasks s !! t = Some AtEntry ->
    step s (goto t AtLock
              (match _lock (limiter s) with
               | None => with_lock (Some None) s
               | Some _ => s
               end))
| step_lock s t :               (* line 36, the lock is free *)
    tasks s !! t = Some AtLock ->
    _lock (limiter s) = Some None ->
    step s (goto t InBlock (with_lock (Some (Some t)) s))
| step_block s t :              (* lines 37-47 *)
    tasks s !! t = Some InBlock ->
    step s (run_block t s)
| step_return s t :             (* leaving the block through [return] *)
    tasks s !! t = Some LeaveGranted ->
    step s (goto t Finished (with_lock (Some None) s))
| step_unwind s t e :           (* leaving the block through an exception *)
    tasks s !! t = Some (LeaveRaise e) ->
    step s (goto t (Failed e) (with_lock (Some None) s))
| step_sleep s t w :            (* end of the block, then line 50 *)
    tasks s !! t = Some (LeaveWait w) ->
    step s (goto t (Sleeping (clock s + Z.max w 0)) (with_lock (Some None) s))
| step_wake s t until :         (* the sleep is over, back to line 35 *)
    tasks s !! t = Some (Sleeping until) ->
    until ≤ clock s ->
    step s (goto t AtLock s).

Inductive reachable (lim : AsyncRateLimiter) (start : Z) : system -> Prop :=
| reach_boot : reachable lim start (boot lim start)
| reach_step s s' : reachable lim start s -> step s s' -> reachable lim start s'.

(** A limiter of capacity 1 and window 10 shared by three callers, all
    arriving at clock reading 0: the first has its slot, the second found
    the window full and sleeps, the third stands at the lock. *)
Definition contended : system :=
  {| limiter := {| max_calls := 1; period := 10; _events := [0];
                   _lock := Some None |};
     tasks := [Finished; Sleeping 10; AtLock];
     clock := 0; last_now := 0; granted := [0] |}.

(** A limiter of capacity 1 and window 10 whose only caller has taken
    the lock and is about to run the block. *)
Definition entered : system :=
  {| limiter := {| max_calls := 1; period := 10; _events := [];
                   _lock := Some (Some 0%nat) |};
     tasks := [InBlock];
     clock := 0; last_now := 0; granted := [] |}.

(** The same limiter three ticks after its first caller was granted the
    slot: a second caller has run the block, found the window full and is
    on its way out of the block to sleep for 7 ticks. *)
Definition blocked : system :=
  {| limiter := {| max_calls := 1; period := 10; _events := [0];
                   _lock := Some (Some 1%nat) |};
     tasks := [Finished; LeaveWait 7];
     clock := 3; last_now := 3; granted := [0] |}.

(** The same limiter with nobody at work: its first caller was granted
    the slot at clock reading 0 and has returned, and the clock has moved
    on to 100 without another call. *)
Definition idle : system :=
  {| limiter := {| max_calls := 1; period := 10; _events := [0];
                   _lock := Some None |};
     tasks := [Finished];
     clock := 100; last_now := 0; granted := [0] |}.

End LimiterTasks.

(** ** [k8s_agent.py] *)

Module K8s.

(** A Python [dict] of strings, in insertion order. *)
Definition dict : Type := list (string * string).

(** The Python values that the adapter hands on without looking inside:
    the values of the [resources] dict, declared [Dict[str, Any]], and
    what it passes to a log call after the message. *)
Inductive pyval : Type :=
| PyStr (s : string)
| PyDict (d : dict)
| PyExn (e : exn).

(** *** The objects of the kubernetes client that the adapter builds *)

Record V1ObjectMeta : Type := {
  meta_name : option string;
  meta_labels : option dict
}.

Record V1EnvVar : Type := { env_name : string; env_value : string }.

(** [V1ResourceRequirements], built from the [resources] dict unpacked
    as keyword arguments: the entries as given. *)
Definition V1ResourceRequirements : Type := list (string * pyval).

(** The keyword parameters of [V1ResourceRequirements.__init__]: the
    three fields of the object and the configuration handle that every
    model of the generated client takes. *)
Definition resource_keywords : list string :=
  ["claims"; "limits"; "requests"; "local_vars_configuration"].

(** [V1ResourceRequirements] called with a dict unpacked as keyword
    arguments: a key that is no keyword parameter of the constructor is
    a [TypeError]. *)
Definition V1ResourceRequirements__init__ (kwargs : list (string * pyval))
  : outcome V1ResourceRequirements :=
  if forallb (λ kv, bool_decide (fst kv ∈ resource_keywords)) kwargs
  then Returns kwargs
  else Raises TypeError.

Record V1Container : Type := {
  container_name : string;
  image : string;
  env : list V1EnvVar;
  resources : V1ResourceRequirements;
  ports : option (list Z)            (* [V1ContainerPort(container_port=...)] *)
}.

Record V1PodSpec : Type := {
  containers : list V1Container;
  restart_policy : string
}.

Record V1PodTemplateSpec : Type := {
  template_metadata : V1ObjectMeta;
  template_spec : V1PodSpec
}.

Record V1DeploymentSpec : Type := {
  replicas : Z;
  template : V1PodTemplateSpec;
  selector : dict                    (* [V1LabelSelector(match_labels=...)] *)
}.

Record V1Deployment : Type := {
  api_version : string;
  kind : string;
  metadata : V1ObjectMeta;
  spec : V1DeploymentSpec
}.

Record V1CrossVersionObjectReference : Type := {
  ref_api_version : string;
  ref_kind : string;
  ref_name : string
}.

Record V1HorizontalPodAutoscalerSpec : Type := {
  max_replicas : Z;
  min_replicas : Z;
  scale_target_ref : V1CrossVersionObjectReference;
  target_cpu_utilization_percentage : Z
}.

Record V1HorizontalPodAutoscaler : Type := {
  hpa_metadata : V1ObjectMeta;
  hpa_spec : V1HorizontalPodAutoscalerSpec
}.

Record V1PodCondition : Type := { type : string; status : string }.

Record V1Pod : Type := {
  pod_name : string;                          (* [p.metadata.name] *)
  pod_status : option (option (list V1PodCondition))
    (* [p.status], then [p.status.conditions]; either may be [None] *)
}.

(** *** The API server, as the adapter sees it *)

Inductive request : Type :=
| read_namespaced_deployment (name namespace : string)
| patch_namespaced_deployment (name namespace : string) (body : V1Deployment)
| create_namespaced_deployment (namespace : string) (body : V1Deployment)
| delete_namespaced_deployment (name namespace : string)
| patch_namespaced_deployment_scale (name namespace : string) (replicas : Z)
| create_namespaced_horizontal_pod_autoscaler
    (namespace : string) (body : V1HorizontalPodAutoscaler)
| delete_namespaced_horizontal_pod_autoscaler (name namespace : string)
| list_namespaced_pod (namespace label_selector : string).

Inductive reply : Type :=
| ReplyDeployment (d : V1Deployment)
| ReplyPodList (items : list V1Pod)
| ReplyStatus.                      (* any other object *)

Inductive answer : Type :=
| Reply (r : reply)
| Fault (e : exn).

Inductive level : Type := DEBUG | INFO | WARNING | ERROR.

(** The environment.  [respond] and [latency] see the requests made so
    far, so the server may answer the same request differently each time;
    [latency] is the clock time a blocking call takes.  [client_config]
    says whether [load_incluster_config] or [load_kube_config] succeeds.
    [log_fault] is the exception that the event logger raises on a call
    that does not fit its signature (see [logger]). *)
Record apiserver : Type := {
  respond : list request -> request -> answer;
  latency : list request -> request -> N;
  client_config : bool;
  log_fault : level -> list pyval -> exn
}.

Record world : Type := {
  requests : list request;          (* every remote call issued, in order *)
  clock : Z;                        (* [loop.time()] *)
  log : list (level * string)
}.

(** *** Python statements as state transformers *)

Definition M (S A : Type) : Type := S -> outcome A * S.

Definition ret {S A} (a : A) : M S A := fun s => (Returns a, s).

Definition raise {S A} (e : exn) : M S A := fun s => (Raises e, s).

Definition out_of_fuel {S A} : M S A := fun s => (OutOfFuel, s).

Definition bind {S A B} (m : M S A) (k : A -> M S B) : M S B :=
  fun s => match m s with
           | (Returns a, s') => k a s'
           | (Raises e, s') => (Raises e, s')
           | (OutOfFuel, s') => (OutOfFuel, s')
           end.

(** [try: m  except ...: handler] where [handler] re-raises what its
    clause does not match. *)
Definition try_except {S A} (m : M S A) (handler : exn -> M S A) : M S A :=
  fun s => match m s with
           | (Raises e, s') => handler e s'
           | r => r
           end.

Declare Scope py_scope.
Delimit Scope py_scope with py.
Notation "x <- m ; k" := (bind m (fun x => k))
  (at level 20, m at level 100, k at level 200, only parsing) : py_scope.
Notation "m >> k" := (bind m (fun _ => k))
  (at level 100, k at level 200, right associativity, only parsing) : py_scope.
Local Open Scope py_scope.

Definition time : M world Z := fun w => (Returns (clock w), w).

(** [await asyncio.sleep(d)] *)
Definition sleep (d : Z) : M world unit :=
  fun w => (Returns tt,
            {| requests := requests w; clock := clock w + d; log := log w |}).

Section Server.
Variable srv : apiserver.

(** The module's [logger] is the event logger of
    [mcp_agent.logging.logger], whose code is not among these sources.
    Its methods [debug], [info], [warning] and [error] are declared
    [(message, name=None, context=None, **data)]: the first value after
    the message is the name of the event, a string, and the second its
    context, an [EventContext].  The adapter calls them in the manner of
    the standard [logging] module, with the message and the values for
    its [%s].  A call with the message alone or with one string fits
    the signature and records the event.  A call with two values, or
    with an exception where the name goes, does not: the event is
    rejected and the call raises, recording nothing. *)
Definition fits_signature (args : list pyval) : bool :=
  match args with
  | [] | [PyStr _] => true
  | _ => false
  end.

Definition logger (lvl : level) (msg : string) (args : list pyval) : M world unit :=
  fun w =>
    if fits_signature args then
      (Returns tt,
       {| requests := requests w; clock := clock w;
          log := log w ++ [(lvl, msg)] |})
    else (Raises (log_fault srv lvl args), w).

(** One blocking call of the generated client. *)
Definition call (rq : request) : M world reply :=
  fun w =>
    let w' := {| requests := requests w ++ [rq];
                 clock := clock w + Z.of_N (latency srv (requests w) rq);
                 log := log w |} in
    match respond srv (requests w) rq with
    | Reply r => (Returns r, w')
    | Fault e => (Raises e, w')
    end.

(** *** [KubernetesManager] *)

Record KubernetesManager : Type := {
  namespace : string;
  kubeconfig : option string
}.

(** [KubernetesManager.__init__] with [_ensure_client] *)
Definition KubernetesManager__init__ (namespace : string)
    (kubeconfig : option string) : M world KubernetesManager :=
  if client_config srv then
    ret {| namespace := namespace; kubeconfig := kubeconfig |}
  else
    raise (RuntimeError "Failed to initialize Kubernetes client. Install 'kubernetes' package and make sure kubeconfig or in-cluster config is available.").

(** The [V1Deployment] that [create_deployment] builds on lines 66-85,
    given the [V1ResourceRequirements] of line 75. *)
Definition build_deployment (name image : string) (labels : dict)
    (container_port : option Z) (replicas : Z) (env : option dict)
    (resources : V1ResourceRequirements) : V1Deployment :=
  let metadata := {| meta_name := Some name; meta_labels := Some labels |} in
  let env_list :=
    match env with
    | Some (_ :: _ as e) =>
        map (fun kv => {| env_name := fst kv; env_value := snd kv |}) e
    | _ => []
    end in
  let container :=
    {| container_name := name; image := image; env := env_list;
       resources := resources;
       ports := match container_port with
                | Some p => if p =? 0 then None else Some [p]
                | None => None
                end |} in
  let pod_spec := {| containers := [container]; restart_policy := "Always" |} in
  let template :=
    {| template_metadata := {| meta_name := None; meta_labels := Some labels |};
       template_spec := pod_spec |} in
  let spec := {| replicas := replicas; template := template;
                 selector := labels |} in
  {| api_version := "apps/v1"; kind := "Deployment";
     metadata := metadata; spec := spec |}.

Definition create_deployment (self : KubernetesManager)
    (name image : string) (labels : dict) (container_port : option Z)
    (replicas : Z) (env : option dict)
    (resources : option (list (string * pyval))) : M world unit :=
  match V1ResourceRequirements__init__ (default [] resources) with
  | Returns requirements =>
      let deployment :=
        build_deployment name image labels container_port replicas env requirements in
      try_except
        (existing <- call (read_namespaced_deployment name (namespace self)) ;
         logger INFO "Patching existing deployment %s" [PyStr name] >>
         call (patch_namespaced_deployment name (namespace self) deployment) >>
         ret tt)
        (fun e =>
           match e with
           | ApiException status =>
               if status =? 404 then
                 logger INFO "Creating deployment %s" [PyStr name] >>
                 call (create_namespaced_deployment (namespace self) deployment) >>
                 ret tt
               else raise e
           | _ => raise e
           end)
  | Raises e => raise e             (* line 75, before the [try] *)
  | OutOfFuel => out_of_fuel
  end.

Definition delete_deployment (self : KubernetesManager) (name : string)
  : M world unit :=
  try_except
    (call (delete_namespaced_deployment name (namespace self)) >> ret tt)
    (fun e =>
       match e with
       | ApiException status =>
           if status =? 404 then
             logger DEBUG "Deployment %s not found during delete" [PyStr name]
           else
             logger WARNING "Failed to delete deployment %s: %s" [PyStr name; PyExn e]
       | _ => raise e
       end).

Definition scale_deployment (self : KubernetesManager) (name : string)
    (replicas : Z) : M world unit :=
  try_except
    (call (patch_namespaced_deployment_scale name (namespace self) replicas) >>
     ret tt)
    (fun e =>
       match e with
       | ApiException _ =>
           logger ERROR "Failed to scale deployment %s: %s" [PyStr name; PyExn e] >>
           raise e
       | _ => raise e
       end).

Definition create_hpa (self : KubernetesManager) (name : string)
    (min_replicas max_replicas cpu_utilization : Z) : M world unit :=
  let target := {| ref_api_version := "apps/v1"; ref_kind := "Deployment";
                   ref_name := name |} in
  let spec := {| max_replicas := max_replicas; min_replicas := min_replicas;
                 scale_target_ref := target;
                 target_cpu_utilization_percentage := cpu_utilization |} in
  let hpa := {| hpa_metadata := {| meta_name := Some name; meta_labels := None |};
                hpa_spec := spec |} in
  try_except
    (call (create_namespaced_horizontal_pod_autoscaler (namespace self) hpa) >>
     ret tt)
    (fun e =>
       match e with
       | ApiException status =>
           if status =? 409 then logger INFO "HPA %s already exists" [PyStr name]
           else
             logger ERROR "Failed to create HPA %s: %s" [PyStr name; PyExn e] >>
             raise e
       | _ => raise e
       end).

Definition delete_hpa (self : KubernetesManager) (name : string)
  : M world unit :=
  try_except
    (call (delete_namespaced_horizontal_pod_autoscaler name (namespace self)) >>
     ret tt)
    (fun e =>
       match e with
       | ApiException status =>
           if status =? 404 then logger DEBUG "HPA %s not found during delete" [PyStr name]
           else logger WARNING "Failed to delete HPA %s: %s" [PyStr name; PyExn e]
       | _ => raise e
       end).

(** *** [K8sAgentAdapter] *)

Record K8sAgentAdapter : Type := {
  name : string;
  initialized : bool;                    (* inherited from [Agent] *)
  connection_persistence : option bool;  (* [None]: no such attribute *)
  k8s_image : option string;
  k8s_namespace : string;
  k8s_replicas : Z;
  k8s_labels : dict;
  k8s_env : dict;
  k8s_resources : list (string * pyval);        (* [Dict[str, Any]] *)
  k8s_port : option Z;
  k8s_autoscale : bool;
  k8s_hpa_min_replicas : Z;
  k8s_hpa_max_replicas : Z;
  k8s_hpa_cpu : option Z;                (* set by [enable_autoscale] only *)
  _k8s_manager : option KubernetesManager;
  _deployment_name : string
}.

Definition set_initialized (b : bool) (self : K8sAgentAdapter) : K8sAgentAdapter :=
  {| name := name self; initialized := b;
     connection_persistence := connection_persistence self;
     k8s_image := k8s_image self; k8s_namespace := k8s_namespace self;
     k8s_replicas := k8s_replicas self; k8s_labels := k8s_labels self;
     k8s_env := k8s_env self; k8s_resources := k8s_resources self;
     k8s_port := k8s_port self; k8s_autoscale := k8s_autoscale self;
     k8s_hpa_min_replicas := k8s_hpa_min_replicas self;
     k8s_hpa_max_replicas := k8s_hpa_max_replicas self;
     k8s_hpa_cpu := k8s_hpa_cpu self;
     _k8s_manager := _k8s_manager self;
     _deployment_name := _deployment_name self |}.

Definition set_k8s_manager (m : option KubernetesManager)
    (self : K8sAgentAdapter) : K8sAgentAdapter :=
  {| name := name self; initialized := initialized self;
     connection_persistence := connection_persistence self;
     k8s_image := k8s_image self; k8s_namespace := k8s_namespace self;
     k8s_replicas := k8s_replicas self; k8s_labels := k8s_labels self;
     k8s_env := k8s_env self; k8s_resources := k8s_resources self;
     k8s_port := k8s_port self; k8s_autoscale := k8s_autoscale self;
     k8s_hpa_min_replicas := k8s_hpa_min_replicas self;
     k8s_hpa_max_replicas := k8s_hpa_max_replicas self;
     k8s_hpa_cpu := k8s_hpa_cpu self;
     _k8s_manager := m;
     _deployment_name := _deployment_name self |}.

Definition set_autoscale (min_replicas max_replicas cpu_utilization : Z)
    (self : K8sAgentAdapter) : K8sAgentAdapter :=
  {| name := name self; initialized := initialized self;
     connection_persistence := connection_persistence self;
     k8s_image := k8s_image self; k8s_namespace := k8s_namespace self;
     k8s_replicas := k8s_replicas self; k8s_labels := k8s_labels self;
     k8s_env := k8s_env self; k8s_resources := k8s_resources self;
     k8s_port := k8s_port self; k8s_autoscale := true;
     k8s_hpa_min_replicas := min_replicas;
     k8s_hpa_max_replicas := max_replicas;
     k8s_hpa_cpu := Some cpu_utilization;
     _k8s_manager := _k8s_manager self;
     _deployment_name := _deployment_name self |}.

(** [K8sAgentAdapter.__init__], applied to the fields pydantic has
    validated. *)
Definition K8sAgentAdapter__init__ (data : K8sAgentAdapter) : K8sAgentAdapter :=
  let deployment_name := "mcp-agent-" +:+ name data in
  {| name := name data; initialized := initialized data;
     connection_persistence := connection_persistence data;
     k8s_image := k8s_image data; k8s_namespace := k8s_namespace data;
     k8s_replicas := k8s_replicas data;
     k8s_labels := match k8s_labels data with
                   | [] => [("app", deployment_name)]
                   | labels => labels
                   end;
     k8s_env := k8s_env data; k8s_resources := k8s_resources data;
     k8s_port := k8s_port data; k8s_autoscale := k8s_autoscale data;
     k8s_hpa_min_replicas := k8s_hpa_min_replicas data;
     k8s_hpa_max_replicas := k8s_hpa_max_replicas data;
     k8s_hpa_cpu := k8s_hpa_cpu data;
     _k8s_manager := None;
     _deployment_name := deployment_name |}.

(** The adapter's methods run on the adapter object and the world. *)
Definition state : Type := K8sAgentAdapter * world.

Definition get_self : M state K8sAgentAdapter := fun s => (Returns (fst s), s).

Definition assign (f : K8sAgentAdapter -> K8sAgentAdapter) : M state unit :=
  fun s => (Returns tt, (f (fst s), snd s)).

(** A statement that touches the world only. *)
Definition in_world {A} (f : M world A) : M state A :=
  fun s => let '(o, w') := f (snd s) in (o, (fst s, w')).

(** [await loop.run_in_executor(None, f)]: [f] runs on a worker thread and
    its result, or its exception, comes back to the caller. *)
Definition run_in_executor {A} (f : M world A) : M state A := in_world f.

(** [self._k8s_manager.<method>]; on [None] that is an [AttributeError]. *)
Definition the_manager : M state KubernetesManager :=
  self <- get_self ;
  match _k8s_manager self with
  | Some mgr => ret mgr
  | None => raise AttributeError
  end.

Definition _ensure_k8s_manager : M state unit :=
  self <- get_self ;
  match _k8s_manager self with
  | Some _ => ret tt
  | None =>
      mgr <- in_world (KubernetesManager__init__ (k8s_namespace self) None) ;
      assign (set_k8s_manager (Some mgr))
  end.

(** [",".join([f"{k}={v}" for k, v in self.k8s_labels.items()])] *)
Definition label_selector (labels : dict) : string :=
  String.concat "," (map (fun kv => fst kv +:+ "=" +:+ snd kv) labels).

Definition is_ready (c : V1PodCondition) : bool :=
  String.eqb (type c) "Ready" && String.eqb (status c) "True".

(** The two nested [for] loops of lines 254-259; [Some p] when the
    [return] on line 259 is reached at pod [p]. *)
Fixpoint scan_pods (items : list V1Pod) : outcome (option V1Pod) :=
  match items with
  | [] => Returns None
  | p :: rest =>
      match pod_status p with
      | None => Raises AttributeError
      | Some conditions =>
          let conds := default [] conditions in
          if existsb is_ready conds then Returns (Some p) else scan_pods rest
      end
  end.

(** The body of the [try] on lines 253-259; [true] when it returns
    from [_wait_for_pod_ready]. *)
Definition poll : M state bool :=
  self <- get_self ;
  _ <- the_manager ;
  pods <- in_world
            (call (list_namespaced_pod (k8s_namespace self)
                     (label_selector (k8s_labels self)))) ;
  match pods with
  | ReplyPodList items =>
      match scan_pods items with
      | Returns (Some p) =>
          in_world
            (logger INFO "Found ready pod %s for deployment %s"
               [PyStr (pod_name p); PyStr (_deployment_name self)]) >>
          ret true
      | Returns None => ret false
      | Raises e => raise e
      | OutOfFuel => out_of_fuel
      end
  | _ => raise AttributeError
  end.

(** The [while True] loop of lines 249-262. *)
Fixpoint wait_loop (fuel : nat) (start timeout_seconds : Z) : M state unit :=
  match fuel with
  | O => out_of_fuel
  | S fuel' =>
      now <- in_world time ;
      if now - start >? timeout_seconds then
        raise (TimeoutError "Timed out waiting for pod to become ready")
      else
        found <- try_except poll
                   (fun e =>
                      in_world (logger DEBUG "Waiting for pod ready: %s" [PyExn e]) >>
                      ret false) ;
        if found : bool then ret tt
        else in_world (sleep 2) >> wait_loop fuel' start timeout_seconds
  end.

Definition _wait_for_pod_ready (fuel : nat) (timeout_seconds : Z) : M state unit :=
  _ensure_k8s_manager >>
  start <- in_world time ;
  wait_loop fuel start timeout_seconds.

(** Lines 211-222 of [initialize]. *)
Definition provision_deployment : M state unit :=
  self <- get_self ;
  mgr <- the_manager ;
  run_in_executor
    (create_deployment mgr (_deployment_name self)
       (default "" (k8s_image self)) (k8s_labels self) (k8s_port self)
       (k8s_replicas self) (Some (k8s_env self)) (Some (k8s_resources self))).

(** Lines 225-233 of [initialize]. *)
Definition provision_autoscaler : M state unit :=
  self <- get_self ;
  if k8s_autoscale self then
    mgr <- the_manager ;
    run_in_executor
      (create_hpa mgr (_deployment_name self) (k8s_hpa_min_replicas self)
         (k8s_hpa_max_replicas self) 80)
  else ret tt.

Definition initialize (fuel : nat) (force : bool) : M state unit :=
  self <- get_self ;
  if initialized self && negb force then ret tt
  else
    in_world
      (logger INFO "K8sAgentAdapter initializing agent %s: provisioning deployment %s"
         [PyStr (name self); PyStr (_deployment_name self)]) >>
    _ensure_k8s_manager >>
    provision_deployment >>
    provision_autoscaler >>
    _wait_for_pod_ready fuel 120 >>
    assign (set_initialized true) >>
    in_world (logger INFO "K8sAgentAdapter provisioning complete for %s" [PyStr (name self)]).

Definition shutdown : M state unit :=
  self <- get_self ;
  in_world (logger INFO "K8sAgentAdapter shutting down agent %s" [PyStr (name self)]) >>
  if default false (connection_persistence self) then
    in_world
      (logger INFO "connection_persistence=True, leaving deployment %s running"
         [PyStr (_deployment_name self)])
  else
    match _k8s_manager self with
    | Some mgr =>
        run_in_executor (delete_hpa mgr (_deployment_name self)) >>
        run_in_executor (delete_deployment mgr (_deployment_name self))
    | None => ret tt
    end >>
    assign (set_initialized false).

Definition scale (replicas : Z) : M state unit :=
  _ensure_k8s_manager >>
  self <- get_self ;
  mgr <- the_manager ;
  run_in_executor (scale_deployment mgr (_deployment_name self) replicas).

Definition enable_autoscale (min_replicas max_replicas cpu_utilization : Z)
  : M state unit :=
  assign (set_autoscale min_replicas max_replicas cpu_utilization) >>
  _ensure_k8s_manager >>
  self <- get_self ;
  mgr <- the_manager ;
  run_in_executor
    (create_hpa mgr (_deployment_name self) min_replicas max_replicas
       cpu_utilization).

End Server.

(** *** A well-behaved API server

    The environment used in the scenarios: a store of deployments and
    autoscalers keyed by namespace and name, which answers 404 for what
    is absent, 409 for what exists already and 422 for a negative
    replica count. *)

Record cluster : Type := {
  deployments : gmap (string * string) V1Deployment;
  autoscalers : gmap (string * string) V1HorizontalPodAutoscaler;
  pods : string -> string -> list V1Pod    (* by namespace and selector *)
}.

Definition set_deployments (ds : gmap (string * string) V1Deployment)
    (c : cluster) : cluster :=
  {| deployments := ds; autoscalers := autoscalers c; pods := pods c |}.

Definition set_autoscalers
    (hs : gmap (string * string) V1HorizontalPodAutoscaler) (c : cluster) : cluster :=
  {| deployments := deployments c; autoscalers := hs; pods := pods c |}.

Definition with_replicas (n : Z) (d : V1Deployment) : V1Deployment :=
  {| api_version := api_version d; kind := kind d; metadata := metadata d;
     spec := {| replicas := n; template := template (spec d);
                selector := selector (spec d) |} |}.

Definition handle (rq : request) (c : cluster) : answer * cluster :=
  match rq with
  | read_namespaced_deployment name ns =>
      match deployments c !! (ns, name) with
      | Some d => (Reply (ReplyDeployment d), c)
      | None => (Fault (ApiException 404), c)
      end
  | patch_namespaced_deployment name ns body =>
      match deployments c !! (ns, name) with
      | Some _ => (Reply (ReplyDeployment body),
                   set_deployments (<[(ns, name) := body]> (deployments c)) c)
      | None => (Fault (ApiException 404), c)
      end
  | create_namespaced_deployment ns body =>
      match meta_name (metadata body) with
      | None => (Fault (ApiException 422), c)
      | Some name =>
          match deployments c !! (ns, name) with
          | Some _ => (Fault (ApiException 409), c)
          | None => (Reply (ReplyDeployment body),
                     set_deployments (<[(ns, name) := body]> (deployments c)) c)
          end
      end
  | delete_namespaced_deployment name ns =>
      match deployments c !! (ns, name) with
      | Some _ => (Reply ReplyStatus,
                   set_deployments (delete (ns, name) (deployments c)) c)
      | None => (Fault (ApiException 404), c)
      end
  | patch_namespaced_deployment_scale name ns n =>
      match deployments c !! (ns, name) with
      | Some d =>
          if n <? 0 then (Fault (ApiException 422), c)
          else (Reply ReplyStatus,
                set_deployments (<[(ns, name) := with_replicas n d]> (deployments c)) c)
      | None => (Fault (ApiException 404), c)
      end
  | create_namespaced_horizontal_pod_autoscaler ns body =>
      match meta_name (hpa_metadata body) with
      | None => (Fault (ApiException 422), c)
      | Some name =>
          match autoscalers c !! (ns, name) with
          | Some _ => (Fault (ApiException 409), c)
          | None => (Reply ReplyStatus,
                     set_autoscalers (<[(ns, name) := body]> (autoscalers c)) c)
          end
      end
  | delete_namespaced_horizontal_pod_autoscaler name ns =>
      match autoscalers c !! (ns, name) with
      | Some _ => (Reply ReplyStatus,
                   set_autoscalers (delete (ns, name) (autoscalers c)) c)
      | None => (Fault (ApiException 404), c)
      end
  | list_namespaced_pod ns label_selector =>
      (Reply (ReplyPodList (pods c ns label_selector)), c)
  end.

(** The store after the requests of [history], oldest first. *)
Definition replay (history : list request) (c : cluster) : cluster :=
  fold_left (fun c rq => snd (handle rq c)) history c.

(** In the scenarios the event logger raises [AttributeError] when an
    exception stands where the context of the event goes, and on every
    other call that does not fit its signature a validation error, which
    is a [ValueError]. *)
Definition event_rejected (lvl : level) (args : list pyval) : exn :=
  match args with
  | [_; PyExn _] => AttributeError
  | _ => ValueError "validation error for Event"
  end.

Definition kube_apiserver (init : cluster) : apiserver :=
  {| respond := fun history rq => fst (handle rq (replay history init));
     latency := fun _ _ => 0%N;
     client_config := true;
     log_fault := event_rejected |}.

(** A server every call to which takes [d] ticks and that knows no pod. *)
Definition slow_empty_apiserver (d : N) : apiserver :=
  {| respond := fun _ rq =>
                  match rq with
                  | list_namespaced_pod _ _ => Reply (ReplyPodList [])
                  | _ => Reply ReplyStatus
                  end;
     latency := fun _ _ => d;
     client_config := true;
     log_fault := event_rejected |}.

(** A server that fails every request with the HTTP status [code]. *)
Definition failing_apiserver (code : Z) : apiserver :=
  {| respond := fun _ _ => Fault (ApiException code);
     latency := fun _ _ => 0%N;
     client_config := true;
     log_fault := event_rejected |}.

Definition empty_cluster : cluster :=
  {| deployments := ∅; autoscalers := ∅; pods := fun _ _ => [] |}.

Definition fresh_world : world := {| requests := []; clock := 0; log := [] |}.

(** An adapter built with the [k8s_] arguments of
    [examples/usecases/k8s_agent_adapter/main.py] by a caller that also
    passes [connection_persistence=False], so that [shutdown] tears the
    deployment down.  (The adapter of [main.py] itself keeps the value
    that [Agent] gives the field; see [warm_agent] for an adapter whose
    flag is set.) *)
Definition demo_agent : K8sAgentAdapter :=
  K8sAgentAdapter__init__
    {| name := "k8s-demo-agent"; initialized := false;
       connection_persistence := Some false;
       k8s_image := Some "ghcr.io/sands/mcp-agent:latest";
       k8s_namespace := "default"; k8s_replicas := 1; k8s_labels := [];
       k8s_env := [("EXAMPLE_VAR", "value")]; k8s_resources := [];
       k8s_port := None; k8s_autoscale := false;
       k8s_hpa_min_replicas := 1; k8s_hpa_max_replicas := 3;
       k8s_hpa_cpu := None; _k8s_manager := None; _deployment_name := "" |}.

(** The namespace [scale] and the other helpers address: that of the
    manager, which [_ensure_k8s_manager] builds from [k8s_namespace] when
    there is none yet. *)
Definition manager_namespace (self : K8sAgentAdapter) : string :=
  match _k8s_manager self with
  | Some mgr => namespace mgr
  | None => k8s_namespace self
  end.

(** A poll that completes and finds nothing: the listing is answered
    with pods, every one of them has a status, and none has a condition
    of type Ready with status True. *)
Definition unready_listing (a : answer) : Prop :=
  ∃ items, a = Reply (ReplyPodList items) ∧ scan_pods items = Returns None.

(** The same adapter once provisioned, with the persistence flag set:
    its deployment is to be kept on shutdown. *)
Definition warm_agent : K8sAgentAdapter :=
  {| name := name demo_agent; initialized := true;
     connection_persistence := Some true;
     k8s_image := k8s_image demo_agent; k8s_namespace := k8s_namespace demo_agent;
     k8s_replicas := k8s_replicas demo_agent; k8s_labels := k8s_labels demo_agent;
     k8s_env := k8s_env demo_agent; k8s_resources := k8s_resources demo_agent;
     k8s_port := k8s_port demo_agent; k8s_autoscale := k8s_autoscale demo_agent;
     k8s_hpa_min_replicas := k8s_hpa_min_replicas demo_agent;
     k8s_hpa_max_replicas := k8s_hpa_max_replicas demo_agent;
     k8s_hpa_cpu := k8s_hpa_cpu demo_agent;
     _k8s_manager := Some {| namespace := "default"; kubeconfig := None |};
     _deployment_name := _deployment_name demo_agent |}.

(** The [V1HorizontalPodAutoscaler] that [create_hpa] builds on lines
    121-128. *)
Definition build_hpa (name : string) (min_replicas max_replicas cpu_utilization : Z)
  : V1HorizontalPodAutoscaler :=
  {| hpa_metadata := {| meta_name := Some name; meta_labels := None |};
     hpa_spec := {| max_replicas := max_replicas; min_replicas := min_replicas;
                    scale_target_ref := {| ref_api_version := "apps/v1";
                                           ref_kind := "Deployment";
                                           ref_name := name |};
                    target_cpu_utilization_percentage := cpu_utilization |} |}.

(** A server that cannot be reached: every call fails below the API, with
    an exception that is no [ApiException]. *)
Definition unreachable_apiserver : apiserver :=
  {| respond := fun _ _ => Fault (OtherException "connection refused");
     latency := fun _ _ => 0%N;
     client_config := true;
     log_fault := event_rejected |}.

(** A server whose every listing shows one pod, Ready, and that accepts
    every other request. *)
Definition ready_apiserver : apiserver :=
  {| respond := fun _ rq =>
                  match rq with
                  | list_namespaced_pod _ _ =>
                      Reply (ReplyPodList
                               [{| pod_name := "mcp-agent-k8s-demo-agent-0";
                                   pod_status :=
                                     Some (Some [{| type := "Ready"; status := "True" |}]) |}])
                  | _ => Reply ReplyStatus
                  end;
     latency := fun _ _ => 1%N;
     client_config := true;
     log_fault := event_rejected |}.

(** A server for a process in which no client configuration can be
    loaded: the [kubernetes] package is missing, or there is neither a
    kubeconfig nor an in-cluster configuration. *)
Definition unconfigured_apiserver : apiserver :=
  {| respond := fun _ _ => Reply ReplyStatus;
     latency := fun _ _ => 0%N;
     client_config := false;
     log_fault := event_rejected |}.

(** A world in which the deployment of [demo_agent] has been created
    by an earlier request. *)
Definition provisioned_world : world :=
  {| requests :=
       [create_namespaced_deployment "default"
          (build_deployment (_deployment_name demo_agent)
             "ghcr.io/sands/mcp-agent:latest" (k8s_labels demo_agent) None 1
             (Some (k8s_env demo_agent)) [])];
     clock := 0; log := [] |}.

End K8s.

(** * Properties of the rate limiter *)

Module LimiterFacts.
Import RateLimiter.

(** What every run of the block keeps true of the limiter, of the log of
    completed acquisitions [granted], and of the clock reading [now] of
    the latest run. *)
Record invariant (K T now : Z) (lim : AsyncRateLimiter) (granted : list Z) : Prop := {
  inv_max_calls : max_calls lim = K;
  inv_period : period lim = T;
  inv_positive : 0 < T;
  inv_size : Z.of_nat (length (_events lim)) ≤ K;
  inv_recent : Forall (λ e, now - T < e ≤ now) (_events lim);
  inv_ordered : StronglySorted Z.le (_events lim);
  inv_log : ∃ old, granted = old ++ _events lim ∧ Forall (λ g, g + T ≤ now) old;
  inv_window : ∀ t, Z.of_nat (in_window t T granted) ≤ K
}.

Lemma evict_split T now ev :
  ∃ old, ev = old ++ evict T now ev ∧ Forall (λ g, g + T ≤ now) old.
Proof.
  induction ev as [|e ev [old [Heq Hold]]]; simpl.
  - exists []. split; [reflexivity | constructor].
  - destruct (now - e >=? T) eqn:E.
    + exists (e :: old). split; [simpl; congruence |].
      constructor; [lia | assumption].
    + exists []. split; [reflexivity | constructor].
Qed.

Lemma evict_length T now ev : (length (evict T now ev) ≤ length ev)%nat.
Proof.
  destruct (evict_split T now ev) as [old [Heq _]].
  rewrite Heq at 2. rewrite length_app. lia.
Qed.

Lemma evict_ordered T now ev :
  StronglySorted Z.le ev -> StronglySorted Z.le (evict T now ev).
Proof.
  induction 1 as [|e ev Hs IH Hall]; simpl; [constructor |].
  destruct (now - e >=? T); [assumption | by constructor].
Qed.

Lemma evict_recent T now ev :
  StronglySorted Z.le ev -> Forall (λ e, e ≤ now) ev ->
  Forall (λ e, now - T < e ≤ now) (evict T now ev).
Proof.
  induction 1 as [|e ev Hs IH Hall]; simpl; intros Hle; [constructor |].
  inversion Hle as [|? ? He Hrest]; subst.
  destruct (now - e >=? T) eqn:E; [by apply IH |].
  constructor; [lia |].
  rewrite Forall_forall in Hall, Hrest |- *.
  intros x Hx. specialize (Hall x Hx). specialize (Hrest x Hx). lia.
Qed.

(** After a sleep of [wait_time] the oldest event is evicted. *)
Lemma evict_head_expired T now e ev :
  T ≤ now - e -> evict T now (e :: ev) = evict T now ev.
Proof. intros H. simpl. destruct (now - e >=? T) eqn:E; [reflexivity | lia]. Qed.

Lemma filter_none {A} (P : A -> Prop) `{∀ x, Decision (P x)} (l : list A) :
  Forall (λ x, ¬ P x) l -> filter P l = [].
Proof.
  induction 1 as [|x l Hx _ IH]; [reflexivity |].
  rewrite filter_cons_False by assumption. exact IH.
Qed.

Lemma in_window_app t T l1 l2 :
  in_window t T (l1 ++ l2) = (in_window t T l1 + in_window t T l2)%nat.
Proof. unfold in_window. by rewrite filter_app, length_app. Qed.

Lemma in_window_le_length t T l : (in_window t T l ≤ length l)%nat.
Proof. unfold in_window. apply length_filter. Qed.

Lemma in_window_outside t T x : ¬ (t ≤ x < t + T) -> in_window t T [x] = 0%nat.
Proof. intros H. unfold in_window. by rewrite filter_cons_False. Qed.

Lemma in_window_old t T now old :
  now - T < t -> Forall (λ g, g + T ≤ now) old -> in_window t T old = 0%nat.
Proof.
  intros Ht Hold. unfold in_window. rewrite filter_none; [reflexivity |].
  eapply Forall_impl; [exact Hold |]. simpl. intros g Hg. lia.
Qed.

Lemma ordered_snoc (l : list Z) (x : Z) :
  StronglySorted Z.le l -> Forall (λ e, e ≤ x) l -> StronglySorted Z.le (l ++ [x]).
Proof.
  induction 1 as [|e l Hs IH Hall]; simpl; intros Hle.
  - repeat constructor.
  - inversion Hle; subst. constructor; [by apply IH |].
    apply Forall_app. split; [assumption | by repeat constructor].
Qed.

Lemma invariant_init K T lim now :
  __init__ K T = Returns lim -> invariant K T now lim [].
Proof.
  unfold __init__. intros H.
  destruct (K <=? 0) eqn:HK; [discriminate |].
  destruct (T <=? 0) eqn:HT; [discriminate |].
  injection H as <-. split; simpl; try done; try lia.
  - constructor.
  - exists []. split; [reflexivity | constructor].
  - intros t. unfold in_window. rewrite filter_nil. simpl. lia.
Qed.

(** The lock does not enter the invariant. *)
Lemma invariant_set_lock K T now lim granted l :
  invariant K T now lim granted -> invariant K T now (set_lock lim l) granted.
Proof. intros []. by split. Qed.

(** One run of the block, at a clock reading not before the previous one. *)
Lemma critical_section_invariant K T now now' lim granted o lim' :
  invariant K T now lim granted -> now ≤ now' ->
  critical_section now' lim = (o, lim') ->
  invariant K T now' lim'
    (match o with Returns Granted => granted ++ [now'] | _ => granted end).
Proof.
  intros [HK HT Hpos Hsize Hrecent Hord [old [Hlog Hold]] Hwin] Hle.
  unfold critical_section. rewrite HK, HT.
  destruct (evict_split T now' (_events lim)) as [old2 [Hsplit Hold2]].
  pose proof (evict_length T now' (_events lim)) as Hlen.
  assert (Hrec' : Forall (λ e, now' - T < e ≤ now') (evict T now' (_events lim))).
  { apply evict_recent; [assumption |].
    eapply Forall_impl; [exact Hrecent |]. simpl. intros; lia. }
  pose proof (evict_ordered T now' _ Hord) as Hord'.
  assert (Hold' : Forall (λ g, g + T ≤ now') (old ++ old2)).
  { apply Forall_app. split; [| assumption].
    eapply Forall_impl; [exact Hold |]. simpl. intros; lia. }
  set (ev := evict T now' (_events lim)) in *.
  destruct (Z.of_nat (length ev) <? K) eqn:Hfree.
  - intros [= <- <-]. split; simpl; try done.
    + rewrite length_app. simpl. lia.
    + apply Forall_app. split; [assumption |]. repeat constructor; lia.
    + apply ordered_snoc; [assumption |].
      eapply Forall_impl; [exact Hrec' |]. simpl. intros; lia.
    + exists (old ++ old2). split; [| assumption].
      rewrite Hlog, Hsplit. by rewrite !app_assoc.
    + intros t. destruct (decide (t ≤ now' < t + T)) as [Hin | Hout].
      * rewrite Hlog, Hsplit, !app_assoc, <- (app_assoc _ ev).
        rewrite in_window_app, (in_window_old t T now') by (assumption || lia).
        pose proof (in_window_le_length t T (ev ++ [now'])) as Hb.
        rewrite length_app in Hb. simpl in Hb. lia.
      * rewrite in_window_app, (in_window_outside _ _ _ Hout).
        specialize (Hwin t). lia.
  - assert (Hres : invariant K T now' (set_events lim ev) granted).
    { split; simpl; try done.
      - lia.
      - exists (old ++ old2). split; [| assumption].
        rewrite Hlog, Hsplit. by rewrite app_assoc. }
    destruct ev; intros [= <- <-]; exact Hres.
Qed.

(** With a positive capacity the block never indexes an empty deque. *)
Lemma critical_section_returns now lim :
  0 < max_calls lim -> ∃ v, fst (critical_section now lim) = Returns v.
Proof.
  intros HK. unfold critical_section.
  destruct (Z.of_nat (length (evict (period lim) now (_events lim))) <? max_calls lim)
    eqn:Hfree; [by eexists |].
  apply Z.ltb_ge in Hfree.
  destruct (evict (period lim) now (_events lim)); [simpl in Hfree; lia | by eexists].
Qed.

Lemma critical_section_cases now lim :
  0 < max_calls lim ->
  let ev := evict (period lim) now (_events lim) in
  (Z.of_nat (length ev) < max_calls lim ∧
   critical_section now lim = (Returns Granted, set_events lim (ev ++ [now])))
  ∨ (∃ oldest rest, ev = oldest :: rest ∧ max_calls lim ≤ Z.of_nat (length ev) ∧
     critical_section now lim
     = (Returns (MustWait (period lim - (now - oldest))), set_events lim ev)).
Proof.
  intros HK ev. unfold critical_section. fold ev.
  destruct (Z.of_nat (length ev) <? max_calls lim) eqn:Hfree.
  - left. apply Z.ltb_lt in Hfree. by split.
  - right. apply Z.ltb_ge in Hfree.
    destruct ev as [|oldest rest] eqn:Hev; [simpl in Hfree; lia |].
    exists oldest, rest. by repeat split.
Qed.

(** One iteration of the [while True] loop of [acquire]. *)
Lemma acquire_loop_unfold fuel lim now :
  acquire_loop (S fuel) lim now
  = match critical_section now lim with
    | (Returns Granted, self') => (Returns tt, self', now)
    | (Returns (MustWait wait_time), self') =>
        acquire_loop fuel self' (now + Z.max wait_time 0)
    | (Raises e, self') => (Raises e, self', now)
    | (OutOfFuel, self') => (OutOfFuel, self', now)
    end.
Proof. reflexivity. Qed.

(** A lone caller gets its slot at the first or at the second attempt. *)
Lemma acquire_loop_returns lim fuel now :
  0 < max_calls lim -> Z.of_nat (length (_events lim)) ≤ max_calls lim ->
  (2 ≤ fuel)%nat ->
  ∃ lim' now', acquire_loop fuel lim now = (Returns tt, lim', now') ∧ now ≤ now'.
Proof.
  intros HK Hsize Hfuel.
  destruct fuel as [|[|fuel]]; [lia | lia |].
  rewrite acquire_loop_unfold.
  destruct (critical_section_cases now lim) as [[_ ->] | (oldest & rest & Hev & Hfull & ->)];
    [lia | eexists _, _; split; [reflexivity | lia] |].
  rewrite acquire_loop_unfold.
  set (now2 := now + Z.max (period lim - (now - oldest)) 0).
  set (lim2 := set_events lim (evict (period lim) now (_events lim))).
  pose proof (evict_length (period lim) now (_events lim)) as Hlen.
  rewrite Hev in Hlen. simpl in Hlen.
  destruct (critical_section_cases now2 lim2) as [[_ ->] | (o2 & r2 & Hev2 & Hfull2 & _)];
    [exact HK | eexists _, _; split; [reflexivity | unfold now2; lia] |].
  exfalso. simpl in Hfull2. rewrite Hev, evict_head_expired in Hfull2 by (unfold now2; lia).
  pose proof (evict_length (period lim) now2 rest) as Hlen2.
  lia.
Qed.

Lemma acquire_returns lim fuel now :
  0 < max_calls lim -> Z.of_nat (length (_events lim)) ≤ max_calls lim ->
  (2 ≤ fuel)%nat ->
  ∃ lim' now', acquire fuel lim now = (Returns tt, lim', now') ∧ now ≤ now'.
Proof.
  intros HK Hsize Hfuel. unfold acquire.
  apply acquire_loop_returns; [| | exact Hfuel]; by destruct (_lock lim).
Qed.





End LimiterFacts.

(** * Properties of the tasks that share a limiter *)

Module TaskFacts.
Import RateLimiter LimiterTasks LimiterFacts.

(** Who holds the lock, read off the program counters. *)
Record lock_invariant (s : system) : Prop := {
  li_holder : ∀ t, _lock (limiter s) = Some (Some t) ->
                   ∃ p, tasks s !! t = Some p ∧ holds_lock p = true;
  li_unique : ∀ t p, tasks s !! t = Some p -> holds_lock p = true ->
                     _lock (limiter s) = Some (Some t);
  li_created : ∀ t p, tasks s !! t = Some p -> p ≠ AtEntry ->
                      _lock (limiter s) ≠ None
}.

Lemma critical_section_lock now lim :
  _lock (snd (critical_section now lim)) = _lock lim.
Proof.
  unfold critical_section.
  destruct (_ <? _); [reflexivity |].
  destruct (evict _ _ _); reflexivity.
Qed.

Lemma run_block_limiter t s :
  limiter (run_block t s) = snd (critical_section (clock s) (limiter s)).
Proof. unfold run_block. by destruct (critical_section _ _). Qed.

Lemma run_block_tasks t s :
  tasks (run_block t s)
  = <[t := after_block (fst (critical_section (clock s) (limiter s)))]> (tasks s).
Proof. unfold run_block. by destruct (critical_section _ _). Qed.

Lemma run_block_granted t s :
  granted (run_block t s)
  = match fst (critical_section (clock s) (limiter s)) with
    | Returns Granted => granted s ++ [clock s]
    | _ => granted s
    end.
Proof. unfold run_block. by destruct (critical_section _ _). Qed.

Lemma run_block_clock t s :
  clock (run_block t s) = clock s ∧ last_now (run_block t s) = clock s.
Proof. unfold run_block. by destruct (critical_section _ _). Qed.

Lemma holds_lock_after_block o : holds_lock (after_block o) = true.
Proof. by destruct o as [[]| |]. Qed.

Ltac pick_task H :=
  apply list_lookup_insert_Some in H as [(<- & <- & ?) | (? & H)].

Lemma lock_invariant_step s s' :
  lock_invariant s -> step s s' -> lock_invariant s'.
Proof.
  intros [Hholder Hunique Hcreated] Hstep.
  destruct Hstep as [s | s d Hd | s t Ht | s t Ht Hfree | s t Ht
                    | s t Ht | s t e Ht | s t w Ht | s t until Ht Hdue].
  - (* a new caller *)
    split; simpl.
    + intros t Hl. destruct (Hholder t Hl) as (p & Hp & Hh).
      exists p. split; [by apply lookup_app_l_Some | done].
    + intros t p Hp Hh.
      apply lookup_snoc_Some in Hp as [[_ Hp] | [_ <-]]; [eauto | done].
    + intros t p Hp Hne.
      apply lookup_snoc_Some in Hp as [[_ Hp] | [_ <-]]; [eauto | done].
  - (* the clock *)
    split; simpl; eauto.
  - (* lines 32-33 *)
    assert (Hnot : ∀ t', _lock (limiter s) = Some (Some t') -> t ≠ t').
    { intros t' Hl <-. destruct (Hholder t Hl) as (p & Hp & Hh).
      rewrite Ht in Hp. by injection Hp as <-. }
    destruct (_lock (limiter s)) as [l|] eqn:Hlock; split; simpl.
    + intros t' Hl. rewrite Hlock in Hl. destruct (Hholder t' Hl) as (p & Hp & Hh).
      exists p. split; [| done].
      rewrite list_lookup_insert_ne; [done | by apply Hnot].
    + intros t' p Hp Hh. pick_task Hp; [done |].
      rewrite Hlock. eauto.
    + intros t' p Hp Hne. by rewrite Hlock.
    + intros t' Hl. done.
    + intros t' p Hp Hh. pick_task Hp; [done |].
      specialize (Hunique t' p Hp Hh). congruence.
    + done.
  - (* line 36 *)
    split; simpl.
    + intros t' [= <-]. exists InBlock. split; [| done].
      apply list_lookup_insert_eq. by eapply lookup_lt_Some.
    + intros t' p Hp Hh. pick_task Hp; [done |].
      specialize (Hunique t' p Hp Hh). congruence.
    + done.
  - (* lines 37-47 *)
    pose proof (Hunique t InBlock Ht eq_refl) as Hmine.
    split; rewrite run_block_limiter, critical_section_lock, run_block_tasks.
    + intros t' Hl. rewrite Hmine in Hl. injection Hl as <-.
      eexists. split; [| apply holds_lock_after_block].
      apply list_lookup_insert_eq. by eapply lookup_lt_Some.
    + intros t' p Hp Hh. pick_task Hp; [done | eauto].
    + intros t' p Hp Hne. congruence.
  - (* return *)
    pose proof (Hunique t _ Ht eq_refl) as Hmine.
    split; simpl; [done | | done].
    intros t' p Hp Hh. pick_task Hp; [done |].
    specialize (Hunique t' p Hp Hh). congruence.
  - (* an exception *)
    pose proof (Hunique t _ Ht eq_refl) as Hmine.
    split; simpl; [done | | done].
    intros t' p Hp Hh. pick_task Hp; [done |].
    specialize (Hunique t' p Hp Hh). congruence.
  - (* end of the block, sleep *)
    pose proof (Hunique t _ Ht eq_refl) as Hmine.
    split; simpl; [done | | done].
    intros t' p Hp Hh. pick_task Hp; [done |].
    specialize (Hunique t' p Hp Hh). congruence.
  - (* wake up *)
    split; simpl.
    + intros t' Hl. destruct (Hholder t' Hl) as (p & Hp & Hh).
      exists p. split; [| done].
      rewrite list_lookup_insert_ne; [done |].
      intros <-. rewrite Ht in Hp. by injection Hp as <-.
    + intros t' p Hp Hh. pick_task Hp; [done | eauto].
    + intros t' p Hp Hne. eapply (Hcreated t _ Ht). done.
Qed.

Lemma lock_invariant_reachable K T lim start s :
  __init__ K T = Returns lim -> reachable lim start s -> lock_invariant s.
Proof.
  intros Hinit. induction 1 as [| s s' _ IH Hstep].
  - unfold __init__ in Hinit.
    destruct (K <=? 0); [discriminate |]. destruct (T <=? 0); [discriminate |].
    injection Hinit as <-. split; simpl; [done | |]; intros t p Hp; done.
  - by eapply lock_invariant_step.
Qed.

(** The limiter's own invariant holds in every reachable state, relative
    to the clock reading of the latest run of the block. *)
Lemma limiter_invariant_reachable K T lim start s :
  __init__ K T = Returns lim -> reachable lim start s ->
  invariant K T (last_now s) (limiter s) (granted s) ∧ last_now s ≤ clock s.
Proof.
  intros Hinit. induction 1 as [| s s' _ [IH Hclock] Hstep].
  - split; [by apply invariant_init | done].
  - destruct Hstep; simpl; try (split; [done || by apply invariant_set_lock | lia]).
    + destruct (_lock (limiter s)); simpl;
        (split; [done || by apply invariant_set_lock | lia]).
    + destruct (run_block_clock t s) as [Hc Hn].
      rewrite run_block_limiter, run_block_granted, Hc, Hn. split; [| lia].
      eapply critical_section_invariant; [exact IH | exact Hclock |].
      by destruct (critical_section _ _).
Qed.


End TaskFacts.

(** * The rate limiter against its specification *)

Module LimiterSpec.
Import RateLimiter LimiterTasks LimiterFacts TaskFacts.

(** One more step of a concrete run: [next] builds the step from the
    state reached so far. *)
Ltac advance r next :=
  lazymatch type of r with
  | reachable ?lim ?start ?s =>
      let stp := next s in
      let r' := fresh "r" in
      pose proof (reach_step lim start s _ r stp) as r';
      cbv in r'; clear r; rename r' into r
  end.

Lemma contended_reachable :
  reachable {| max_calls := 1; period := 10; _events := []; _lock := None |} 0 contended.
Proof.
  pose proof (reach_boot {| max_calls := 1; period := 10; _events := []; _lock := None |} 0) as r.
  cbv in r.
  advance r ltac:(fun s => constr:(step_call s)).
  advance r ltac:(fun s => constr:(step_call s)).
  advance r ltac:(fun s => constr:(step_call s)).
  advance r ltac:(fun s => constr:(step_entry s 0%nat eq_refl)).
  advance r ltac:(fun s => constr:(step_lock s 0%nat eq_refl eq_refl)).
  advance r ltac:(fun s => constr:(step_block s 0%nat eq_refl)).
  advance r ltac:(fun s => constr:(step_return s 0%nat eq_refl)).
  advance r ltac:(fun s => constr:(step_entry s 1%nat eq_refl)).
  advance r ltac:(fun s => constr:(step_lock s 1%nat eq_refl eq_refl)).
  advance r ltac:(fun s => constr:(step_block s 1%nat eq_refl)).
  advance r ltac:(fun s => constr:(step_sleep s 1%nat 10 eq_refl)).
  advance r ltac:(fun s => constr:(step_entry s 2%nat eq_refl)).
  exact r.
Qed.

Lemma last_cons_default (l : list Z) (a d : Z) :
  List.last (a :: l) d = List.last l a.
Proof.
  revert a d. induction l as [|b l IH]; intros a d; [reflexivity |].
  change (List.last (b :: l) d = List.last (b :: l) a).
  by rewrite !IH.
Qed.

(** The same bound for a bare schedule of runs of the block at
    non-decreasing clock readings. *)
Lemma run_invariant K T times :
  ∀ now lim granted,
    invariant K T now lim granted ->
    StronglySorted Z.le (now :: times) ->
    invariant K T (List.last times now) (fst (run times lim granted))
      (snd (run times lim granted)).
Proof.
  induction times as [|now' times IH]; intros now lim granted Hinv Hsorted;
    [exact Hinv |].
  inversion Hsorted as [|? ? Htail Hhead]; subst.
  inversion Hhead as [|? ? Hle _]; subst.
  rewrite last_cons_default. simpl.
  destruct (critical_section now' lim) as [o lim'] eqn:Hcs.
  pose proof (critical_section_invariant K T now now' lim granted o lim' Hinv Hle Hcs) as Hnext.
  destruct o as [[|w]|e|]; by apply IH.
Qed.

(** Scenario 1 of the design document, with a window of 1000 ticks: of
    five attempts at clock reading 0 exactly three are granted. *)
Example five_callers_three_slots :
  ∀ lim, __init__ 3 1000 = Returns lim ->
         snd (run [0; 0; 0; 0; 0] lim []) = [0; 0; 0].
Proof. intros lim [= <-]. reflexivity. Qed.

Lemma idle_reachable :
  reachable {| max_calls := 1; period := 10; _events := []; _lock := None |} 0 idle.
Proof.
  pose proof (reach_boot {| max_calls := 1; period := 10; _events := []; _lock := None |} 0) as r.
  cbv in r.
  advance r ltac:(fun s => constr:(step_call s)).
  advance r ltac:(fun s => constr:(step_entry s 0%nat eq_refl)).
  advance r ltac:(fun s => constr:(step_lock s 0%nat eq_refl eq_refl)).
  advance r ltac:(fun s => constr:(step_block s 0%nat eq_refl)).
  advance r ltac:(fun s => constr:(step_return s 0%nat eq_refl)).
  assert (Htick : 0 ≤ 100) by lia.
  advance r ltac:(fun s => constr:(step_tick s 100 Htick)).
  exact r.
Qed.

(** C1, as stated, fails.  Timestamps are evicted only when the block
    runs.  A limiter of capacity 1 and window 10 grants a slot at clock
    reading 0; nobody calls [acquire] again; at clock reading 100 the
    deque still holds the timestamp 0, which is not within 10 of the
    current time. *)
Lemma sliding_window_stale_event :
  __init__ 1 10 = Returns {| max_calls := 1; period := 10; _events := []; _lock := None |}
  ∧ reachable {| max_calls := 1; period := 10; _events := []; _lock := None |} 0 idle
  ∧ ¬ Forall (λ e, clock idle - 10 < e ≤ clock idle) (_events (limiter idle)).
Proof.
  split; [reflexivity |]. split; [exact idle_reachable |].
  intros H. apply Forall_inv in H. simpl in H. lia.
Qed.

(** C1.  Sliding-window bound.  A limiter built with capacity [K] and
    window [T] is shared by any number of concurrent [acquire] calls,
    interleaved in any way while the clock moves.  In every state that can
    be reached, the deque holds at most [K] timestamps, every one of them
    lies within [T] of the clock reading [last_now] at which the block
    last ran (and is not later than it), and no window [t, t + T) contains
    more than [K] completed acquisitions. *)
Theorem sliding_window_bound K T lim start s :
  __init__ K T = Returns lim ->
  reachable lim start s ->
  Z.of_nat (length (_events (limiter s))) ≤ K
  ∧ Forall (λ e, last_now s - T < e ≤ last_now s) (_events (limiter s))
  ∧ last_now s ≤ clock s
  ∧ ∀ t, Z.of_nat (in_window t T (granted s)) ≤ K.
Proof.
  intros Hinit Hreach.
  destruct (limiter_invariant_reachable K T lim start s Hinit Hreach)
    as [[_ _ _ Hsize Hrecent _ _ Hwin] Hclock].
  auto.
Qed.

Lemma sliding_window_bound_witness :
  Z.of_nat (length (_events (limiter contended))) ≤ 1
  ∧ Forall (λ e, last_now contended - 10 < e ≤ last_now contended)
      (_events (limiter contended))
  ∧ last_now contended ≤ clock contended
  ∧ ∀ t, Z.of_nat (in_window t 10 (granted contended)) ≤ 1.
Proof.
  apply (sliding_window_bound 1 10
           {| max_calls := 1; period := 10; _events := []; _lock := None |} 0 contended).
  - reflexivity.
  - exact contended_reachable.
Defined.



(** C10.  Lock discipline.  In every reachable state the lock is held by
    a task exactly while that task is inside the [async with] block
    (evict, check, append); a task that sleeps does not hold it; and a
    contender standing at the lock while every task is outside the block,
    asleep or not, takes the lock at once. *)
Theorem lock_released_before_sleep K T lim start s :
  __init__ K T = Returns lim ->
  reachable lim start s ->
  (∀ t p, tasks s !! t = Some p ->
          (_lock (limiter s) = Some (Some t) ↔ holds_lock p = true))
  ∧ (∀ t until, tasks s !! t = Some (Sleeping until) ->
                _lock (limiter s) ≠ Some (Some t))
  ∧ (∀ u, tasks s !! u = Some AtLock ->
          (∀ t p, tasks s !! t = Some p -> holds_lock p = false) ->
          step s (goto u InBlock (with_lock (Some (Some u)) s))).
Proof.
  intros Hinit Hreach.
  destruct (lock_invariant_reachable K T lim start s Hinit Hreach)
    as [Hholder Hunique Hcreated].
  split; [| split].
  - intros t p Hp. split; [| by apply Hunique].
    intros Hl. destruct (Hholder t Hl) as (p' & Hp' & Hh). congruence.
  - intros t until Hp Hl. destruct (Hholder t Hl) as (p' & Hp' & Hh).
    rewrite Hp in Hp'. by injection Hp' as <-.
  - intros u Hu Hout. apply step_lock; [exact Hu |].
    destruct (_lock (limiter s)) as [[t|]|] eqn:Hl.
    + destruct (Hholder t eq_refl) as (p & Hp & Hh).
      rewrite (Hout t p Hp) in Hh. discriminate.
    + reflexivity.
    + by destruct (Hcreated u AtLock Hu).
Qed.

Lemma lock_released_before_sleep_witness :
  _lock (limiter contended) ≠ Some (Some 1%nat)
  ∧ step contended (goto 2 InBlock (with_lock (Some (Some 2%nat)) contended)).
Proof.
  destruct (lock_released_before_sleep 1 10
              {| max_calls := 1; period := 10; _events := []; _lock := None |}
              0 contended eq_refl contended_reachable) as (_ & Hsleep & Henter).
  split.
  - apply (Hsleep 1%nat 10). reflexivity.
  - apply Henter; [reflexivity |].
    intros [|[|[|t]]] p [= <-]; reflexivity.
Defined.

End LimiterSpec.

(** * Properties of the adapter *)

Module K8sFacts.
Import K8s.

Lemma bind_returns {S A B} (m : M S A) (k : A -> M S B) s a s' :
  m s = (Returns a, s') -> bind m k s = k a s'.
Proof. unfold bind. by intros ->. Qed.

Lemma bind_raises {S A B} (m : M S A) (k : A -> M S B) s e s' :
  m s = (Raises e, s') -> bind m k s = (Raises e, s').
Proof. unfold bind. by intros ->. Qed.

(** What one call does to the world. *)
Lemma call_spec srv rq w :
  call srv rq w
  = (match respond srv (requests w) rq with
     | Reply r => Returns r
     | Fault e => Raises e
     end,
     {| requests := requests w ++ [rq];
        clock := clock w + Z.of_N (latency srv (requests w) rq);
        log := log w |}).
Proof. unfold call. by destruct (respond srv (requests w) rq). Qed.

Lemma bind_get_self {B} (k : K8sAgentAdapter -> M state B) self w :
  bind get_self k (self, w) = k self (self, w).
Proof. reflexivity. Qed.

Lemma the_manager_some self w mgr :
  _k8s_manager self = Some mgr -> the_manager (self, w) = (Returns mgr, (self, w)).
Proof. intros H. unfold the_manager. rewrite bind_get_self. by rewrite H. Qed.

Lemma the_manager_none self w :
  _k8s_manager self = None -> the_manager (self, w) = (Raises AttributeError, (self, w)).
Proof. intros H. unfold the_manager. rewrite bind_get_self. by rewrite H. Qed.

Lemma in_world_spec {A} (f : M world A) self w :
  in_world f (self, w) = (fst (f w), (self, snd (f w))).
Proof. unfold in_world. simpl. by destruct (f w). Qed.

Lemma set_k8s_manager_same self :
  set_k8s_manager (_k8s_manager self) self = self.
Proof. by destruct self. Qed.

(** A log call that fits the signature records its event; one that does
    not raises what the logger raises and records nothing. *)
Lemma logger_spec srv lvl msg args w :
  logger srv lvl msg args w
  = if fits_signature args then
      (Returns tt,
       {| requests := requests w; clock := clock w; log := log w ++ [(lvl, msg)] |})
    else (Raises (log_fault srv lvl args), w).
Proof. reflexivity. Qed.

(** [delete_deployment], case by case on the server's answer.  A 404 is
    logged and swallowed.  For any other [ApiException] the warning of
    line 106 is a log call with two values: it raises, from inside the
    [except] clause, and that is how the call ends. *)
Lemma delete_deployment_spec srv mgr name w :
  delete_deployment srv mgr name w
  = let rq := delete_namespaced_deployment name (namespace mgr) in
    let w1 := {| requests := requests w ++ [rq];
                 clock := clock w + Z.of_N (latency srv (requests w) rq);
                 log := log w |} in
    match respond srv (requests w) rq with
    | Reply _ => (Returns tt, w1)
    | Fault (ApiException status) =>
        if status =? 404 then
          (Returns tt,
           {| requests := requests w1; clock := clock w1;
              log := log w ++ [(DEBUG, "Deployment %s not found during delete")] |})
        else
          (Raises (log_fault srv WARNING [PyStr name; PyExn (ApiException status)]), w1)
    | Fault e => (Raises e, w1)
    end.
Proof.
  unfold delete_deployment, try_except, bind. rewrite call_spec. cbv zeta.
  destruct (respond srv _ _) as [r | e]; [reflexivity |].
  destruct e as [st| | | | | | |]; try reflexivity. by destruct (st =? 404).
Qed.

Lemma delete_hpa_spec srv mgr name w :
  delete_hpa srv mgr name w
  = let rq := delete_namespaced_horizontal_pod_autoscaler name (namespace mgr) in
    let w1 := {| requests := requests w ++ [rq];
                 clock := clock w + Z.of_N (latency srv (requests w) rq);
                 log := log w |} in
    match respond srv (requests w) rq with
    | Reply _ => (Returns tt, w1)
    | Fault (ApiException status) =>
        if status =? 404 then
          (Returns tt,
           {| requests := requests w1; clock := clock w1;
              log := log w ++ [(DEBUG, "HPA %s not found during delete")] |})
        else
          (Raises (log_fault srv WARNING [PyStr name; PyExn (ApiException status)]), w1)
    | Fault e => (Raises e, w1)
    end.
Proof.
  unfold delete_hpa, try_except, bind. rewrite call_spec. cbv zeta.
  destruct (respond srv _ _) as [r | e]; [reflexivity |].
  destruct e as [st| | | | | | |]; try reflexivity. by destruct (st =? 404).
Qed.

(** [scale_deployment]: the error log of line 113 is a call with two
    values, so on an [ApiException] it is the logger that raises, before
    the bare [raise] is reached. *)
Lemma scale_deployment_spec srv mgr name n w :
  scale_deployment srv mgr name n w
  = let rq := patch_namespaced_deployment_scale name (namespace mgr) n in
    (match respond srv (requests w) rq with
     | Reply _ => Returns tt
     | Fault (ApiException status) =>
         Raises (log_fault srv ERROR [PyStr name; PyExn (ApiException status)])
     | Fault e => Raises e
     end,
     {| requests := requests w ++ [rq];
        clock := clock w + Z.of_N (latency srv (requests w) rq);
        log := log w |}).
Proof.
  unfold scale_deployment, try_except, bind. rewrite call_spec. cbv zeta.
  destruct (respond srv _ _) as [r | e]; [reflexivity |].
  by destruct e.
Qed.

(** [create_hpa], case by case on the server's answer: a 409 is logged
    and swallowed; for any other [ApiException] the error log of line
    135 raises. *)
Lemma create_hpa_spec srv mgr name lo hi cpu w :
  create_hpa srv mgr name lo hi cpu w
  = let rq := create_namespaced_horizontal_pod_autoscaler (namespace mgr)
                (build_hpa name lo hi cpu) in
    (match respond srv (requests w) rq with
     | Reply _ => Returns tt
     | Fault (ApiException st) =>
         if st =? 409 then Returns tt
         else Raises (log_fault srv ERROR [PyStr name; PyExn (ApiException st)])
     | Fault e => Raises e
     end,
     {| requests := requests w ++ [rq];
        clock := clock w + Z.of_N (latency srv (requests w) rq);
        log := match respond srv (requests w) rq with
               | Fault (ApiException st) =>
                   if st =? 409 then log w ++ [(INFO, "HPA %s already exists")]
                   else log w
               | _ => log w
               end |}).
Proof.
  unfold create_hpa, build_hpa, try_except, bind. rewrite call_spec. cbv zeta.
  destruct (respond srv _ _) as [r | e]; [reflexivity |].
  destruct e as [st| | | | | | |]; try reflexivity. by destruct (st =? 409).
Qed.

(** [_ensure_k8s_manager] keeps a manager that is there and otherwise
    builds one for [k8s_namespace], which needs a client configuration. *)
Lemma ensure_manager_present srv self w mgr :
  _k8s_manager self = Some mgr ->
  _ensure_k8s_manager srv (self, w) = (Returns tt, (self, w)).
Proof. intros H. unfold _ensure_k8s_manager, bind, get_self. simpl. by rewrite H. Qed.

Lemma ensure_manager_absent srv self w :
  _k8s_manager self = None ->
  _ensure_k8s_manager srv (self, w)
  = if client_config srv then
      (Returns tt,
       (set_k8s_manager
          (Some {| namespace := k8s_namespace self; kubeconfig := None |}) self, w))
    else
      (Raises (RuntimeError "Failed to initialize Kubernetes client. Install 'kubernetes' package and make sure kubeconfig or in-cluster config is available."),
       (self, w)).
Proof.
  intros H.
  unfold _ensure_k8s_manager, bind, get_self, in_world, KubernetesManager__init__.
  simpl. rewrite H. by destruct (client_config srv).
Qed.

(** With a manager at hand, or the means to build one, the adapter gets
    to its manager and nothing else has happened. *)
Lemma ensure_manager_ok srv self w :
  client_config srv = true ∨ is_Some (_k8s_manager self) ->
  ∃ self', _ensure_k8s_manager srv (self, w) = (Returns tt, (self', w))
           ∧ self' = set_k8s_manager (_k8s_manager self') self
           ∧ _k8s_manager self'
             = Some (default {| namespace := k8s_namespace self; kubeconfig := None |}
                       (_k8s_manager self)).
Proof.
  intros Hok. destruct (_k8s_manager self) as [mgr|] eqn:Hmgr.
  - exists self. rewrite (ensure_manager_present _ _ _ mgr Hmgr), Hmgr.
    split; [done |]. split; [| done]. rewrite <- Hmgr. by rewrite set_k8s_manager_same.
  - destruct Hok as [Hcfg | [? [=]]].
    rewrite (ensure_manager_absent _ _ _ Hmgr), Hcfg. eexists. split; [done |].
    by split.
Qed.

(** Line 75 accepts a [resources] dict exactly when every key is a
    keyword parameter of [V1ResourceRequirements]. *)
Lemma resource_requirements_accepted kwargs :
  Forall (λ kv, fst kv ∈ resource_keywords) kwargs ->
  V1ResourceRequirements__init__ kwargs = Returns kwargs.
Proof.
  intros Hall. unfold V1ResourceRequirements__init__.
  replace (forallb _ kwargs) with true; [reflexivity |].
  symmetry. apply Is_true_true, forallb_True.
  eapply Forall_impl; [exact Hall |]. intros kv Hkv. by apply bool_decide_pack.
Qed.

Lemma resource_requirements_rejected kwargs :
  ¬ Forall (λ kv, fst kv ∈ resource_keywords) kwargs ->
  V1ResourceRequirements__init__ kwargs = Raises TypeError.
Proof.
  intros Hnot. unfold V1ResourceRequirements__init__.
  destruct (forallb _ kwargs) eqn:Hall; [| reflexivity].
  destruct Hnot. apply Is_true_true, forallb_True in Hall.
  eapply Forall_impl; [exact Hall |]. intros kv Hkv. by apply bool_decide_unpack in Hkv.
Qed.

(** [create_deployment] on resources that line 75 accepts, case by case
    on the server's answers: the outcome and the requests issued. *)
Lemma create_deployment_spec srv mgr name img labels port n envs res w :
  Forall (λ kv, fst kv ∈ resource_keywords) (default [] res) ->
  let ns := namespace mgr in
  let body := build_deployment name img labels port n envs (default [] res) in
  let read := read_namespaced_deployment name ns in
  let patch := patch_namespaced_deployment name ns body in
  let create := create_namespaced_deployment ns body in
  let h1 := requests w ++ [read] in
  let h2 := h1 ++ [patch] in
  let r := create_deployment srv mgr name img labels port n envs res w in
  (fst r, requests (snd r))
  = match respond srv (requests w) read with
    | Reply _ =>
        match respond srv h1 patch with
        | Reply _ => (Returns tt, h2)
        | Fault (ApiException st) =>
            if st =? 404 then
              (match respond srv h2 create with
               | Reply _ => Returns tt
               | Fault e => Raises e
               end, h2 ++ [create])
            else (Raises (ApiException st), h2)
        | Fault e => (Raises e, h2)
        end
    | Fault (ApiException st) =>
        if st =? 404 then
          (match respond srv h1 create with
           | Reply _ => Returns tt
           | Fault e => Raises e
           end, h1 ++ [create])
        else (Raises (ApiException st), h1)
    | Fault e => (Raises e, h1)
    end.
Proof.
  intros Hres. cbv zeta. unfold create_deployment.
  rewrite (resource_requirements_accepted _ Hres).
  unfold try_except, bind. rewrite call_spec.
  destruct (respond srv (requests w) _) as [d | e]; simpl.
  - rewrite call_spec. simpl.
    destruct (respond srv (requests w ++ [_]) _) as [d' | e]; simpl; [reflexivity |].
    destruct e as [st| | | | | | |]; try reflexivity.
    destruct (st =? 404); [| reflexivity]. simpl. rewrite call_spec. simpl.
    by destruct (respond srv _ _).
  - destruct e as [st| | | | | | |]; try reflexivity.
    destruct (st =? 404); [| reflexivity]. simpl. rewrite call_spec. simpl.
    by destruct (respond srv _ _).
Qed.

(** On resources that line 75 rejects, [create_deployment] raises before
    the [try]: nothing is requested and nothing is logged. *)
Lemma create_deployment_rejects srv mgr name img labels port n envs res w :
  ¬ Forall (λ kv, fst kv ∈ resource_keywords) (default [] res) ->
  create_deployment srv mgr name img labels port n envs res w = (Raises TypeError, w).
Proof.
  intros Hres. unfold create_deployment.
  by rewrite (resource_requirements_rejected _ Hres).
Qed.

(** The store of the well-behaved server after one more request. *)
Lemma replay_snoc history rq c :
  replay (history ++ [rq]) c = snd (handle rq (replay history c)).
Proof. unfold replay. by rewrite fold_left_app. Qed.

Lemma respond_kube_apiserver init history rq :
  respond (kube_apiserver init) history rq = fst (handle rq (replay history init)).
Proof. reflexivity. Qed.

(** On the well-behaved server [create_deployment] always succeeds, with a
    read followed by a patch when the deployment is there and by a create
    when it is not, and leaves the deployment it was given in the store. *)
Lemma create_deployment_on_cluster init mgr name img labels port n envs res w :
  Forall (λ kv, fst kv ∈ resource_keywords) (default [] res) ->
  let ns := namespace mgr in
  let body := build_deployment name img labels port n envs (default [] res) in
  let r := create_deployment (kube_apiserver init) mgr name img labels port n envs res w in
  fst r = Returns tt
  ∧ requests (snd r)
    = requests w
      ++ [read_namespaced_deployment name ns;
          match deployments (replay (requests w) init) !! (ns, name) with
          | Some _ => patch_namespaced_deployment name ns body
          | None => create_namespaced_deployment ns body
          end]
  ∧ deployments (replay (requests (snd r)) init)
    = <[(ns, name) := body]> (deployments (replay (requests w) init)).
Proof.
  intros Hres. cbv zeta.
  pose proof (create_deployment_spec (kube_apiserver init) mgr name img labels port n envs res w
                Hres) as Hspec.
  cbv zeta in Hspec. rewrite !respond_kube_apiserver, !replay_snoc in Hspec.
  set (c := replay (requests w) init) in *.
  simpl in Hspec.
  destruct (deployments c !! (namespace mgr, name)) as [d|] eqn:Hd; simpl in Hspec.
  - rewrite Hd in Hspec. simpl in Hspec. injection Hspec as Ho Hr.
    rewrite Ho, Hr. split; [done |]. split; [by rewrite <- app_assoc |].
    rewrite !replay_snoc. fold c. simpl. rewrite Hd. simpl. by rewrite Hd.
  - rewrite Hd in Hspec. simpl in Hspec. injection Hspec as Ho Hr.
    rewrite Ho, Hr. split; [done |]. split; [by rewrite <- app_assoc |].
    rewrite !replay_snoc. fold c. simpl. rewrite Hd. simpl. by rewrite Hd.
Qed.

(** The [except Exception] clause of line 260: its log call hands the
    logger an exception for a name, so it raises whatever it caught. *)
Lemma poll_handler_raises srv e st :
  bind (in_world (logger srv DEBUG "Waiting for pod ready: %s" [PyExn e]))
    (λ _, ret false) st
  = (Raises (log_fault srv DEBUG [PyExn e]), st).
Proof. by destruct st. Qed.

(** One poll of [_wait_for_pod_ready] with its [except Exception]
    clause, in full: one listing; [False] when the listing is answered
    with pods whose scan finds nothing; in every other case an exception
    of the logger.  A ready pod makes line 258 raise, inside the [try],
    and line 261 raise in its turn; so does any failure of the poll. *)
Lemma poll_spec srv self w mgr :
  _k8s_manager self = Some mgr ->
  let rq := list_namespaced_pod (k8s_namespace self) (label_selector (k8s_labels self)) in
  let w1 := {| requests := requests w ++ [rq];
               clock := clock w + Z.of_N (latency srv (requests w) rq);
               log := log w |} in
  try_except (poll srv)
    (λ e, bind (in_world (logger srv DEBUG "Waiting for pod ready: %s" [PyExn e]))
            (λ _, ret false)) (self, w)
  = (match respond srv (requests w) rq with
     | Reply (ReplyPodList items) =>
         match scan_pods items with
         | Returns (Some p) =>
             Raises (log_fault srv DEBUG
                       [PyExn (log_fault srv INFO
                                 [PyStr (pod_name p); PyStr (_deployment_name self)])])
         | Returns None => Returns false
         | Raises e => Raises (log_fault srv DEBUG [PyExn e])
         | OutOfFuel => OutOfFuel
         end
     | Reply _ => Raises (log_fault srv DEBUG [PyExn AttributeError])
     | Fault e => Raises (log_fault srv DEBUG [PyExn e])
     end, (self, w1)).
Proof.
  intros Hmgr. cbv zeta. unfold try_except, poll. rewrite bind_get_self.
  rewrite (bind_returns _ _ _ _ _ (the_manager_some _ _ _ Hmgr)).
  unfold bind at 1. rewrite in_world_spec, call_spec. cbn [fst snd].
  destruct (respond srv _ _) as [[d | items |] | e]; try reflexivity.
  destruct (scan_pods items) as [[p|] | e |]; reflexivity.
Qed.

Lemma wait_loop_unfold srv fuel start timeout_seconds st :
  wait_loop srv (S fuel) start timeout_seconds st
  = bind (in_world time)
      (λ now,
         if now - start >? timeout_seconds then
           raise (TimeoutError "Timed out waiting for pod to become ready")
         else
           bind (try_except (poll srv)
                   (λ e, bind (in_world (logger srv DEBUG "Waiting for pod ready: %s"
                                           [PyExn e]))
                           (λ _, ret false)))
             (λ found : bool,
                if found then ret tt
                else bind (in_world (sleep 2))
                       (λ _, wait_loop srv fuel start timeout_seconds))) st.
Proof. reflexivity. Qed.

(** The polling loop when every poll completes and finds nothing: it
    ends, with a [TimeoutError], at an elapsed time beyond the timeout by
    at most one sleep and one listing. *)
Lemma wait_loop_times_out srv L timeout_seconds start :
  (∀ h ns sel, unready_listing (respond srv h (list_namespaced_pod ns sel))) ->
  (∀ h rq, Z.of_N (latency srv h rq) ≤ L) ->
  ∀ fuel self w mgr,
    _k8s_manager self = Some mgr ->
    start ≤ clock w -> clock w - start ≤ timeout_seconds + 2 + L ->
    (1 ≤ fuel)%nat ->
    timeout_seconds - (clock w - start) < 2 * Z.of_nat fuel - 2 ->
    ∃ w', wait_loop srv fuel start timeout_seconds (self, w)
          = (Raises (TimeoutError "Timed out waiting for pod to become ready"),
             (self, w'))
          ∧ timeout_seconds < clock w' - start ≤ timeout_seconds + 2 + L.
Proof.
  intros Hquiet Hlat. induction fuel as [|fuel IH]; intros self w mgr Hmgr Hge Hle Hone Hfuel;
    [lia |].
  assert (0 ≤ L) by (specialize (Hlat [] (list_namespaced_pod "" "")); lia).
  rewrite wait_loop_unfold. unfold bind at 1. rewrite in_world_spec. simpl.
  destruct (clock w - start >? timeout_seconds) eqn:Hlate.
  - exists w. split; [reflexivity |]. lia.
  - unfold bind at 1. rewrite (poll_spec srv self w mgr Hmgr). cbv zeta.
    destruct (Hquiet (requests w) (k8s_namespace self) (label_selector (k8s_labels self)))
      as (items & -> & ->).
    unfold bind at 1. rewrite in_world_spec. simpl.
    specialize (Hlat (requests w) (list_namespaced_pod (k8s_namespace self)
                                     (label_selector (k8s_labels self)))).
    eapply IH; simpl; [exact Hmgr | lia | lia | lia | lia].
Qed.

(** [self'] is [self] except, possibly, for the manager it holds. *)
Definition stable (self self' : K8sAgentAdapter) : Prop :=
  self' = set_k8s_manager (_k8s_manager self') self.

(** A statement that leaves the adapter alone, the manager apart, however
    it ends. *)
Definition frames {A} (m : M state A) : Prop :=
  ∀ st o st', m st = (o, st') -> stable (fst st) (fst st').

Lemma stable_refl self : stable self self.
Proof. unfold stable. by rewrite set_k8s_manager_same. Qed.

Lemma stable_trans s1 s2 s3 : stable s1 s2 -> stable s2 s3 -> stable s1 s3.
Proof. unfold stable. intros -> ->. by destruct s1. Qed.

Lemma frames_ret {A} (a : A) : frames (ret a).
Proof. intros st o st' [= <- <-]. apply stable_refl. Qed.

Lemma frames_raise {A} e : frames (@raise state A e).
Proof. intros st o st' [= <- <-]. apply stable_refl. Qed.

Lemma frames_get_self : frames get_self.
Proof. intros st o st' [= <- <-]. apply stable_refl. Qed.

Lemma frames_in_world {A} (f : M world A) : frames (in_world f).
Proof.
  intros [self w] o st'. rewrite in_world_spec. intros [= <- <-]. apply stable_refl.
Qed.

Lemma frames_bind {A B} (m : M state A) (k : A -> M state B) :
  frames m -> (∀ a, frames (k a)) -> frames (bind m k).
Proof.
  intros Hm Hk st o st'. unfold bind.
  destruct (m st) as [[a | e |] st1] eqn:Hrun.
  - intros Hrest. eapply stable_trans; [by eapply Hm | by eapply Hk].
  - intros [= <- <-]. by eapply Hm.
  - intros [= <- <-]. by eapply Hm.
Qed.

Lemma frames_the_manager : frames the_manager.
Proof.
  apply frames_bind; [apply frames_get_self |].
  intros self. destruct (_k8s_manager self); [apply frames_ret | apply frames_raise].
Qed.

Lemma frames_ensure_manager srv : frames (_ensure_k8s_manager srv).
Proof.
  intros [self w] o st'.
  destruct (_k8s_manager self) as [mgr|] eqn:Hmgr.
  - rewrite (ensure_manager_present _ _ _ mgr Hmgr). intros [= <- <-]. apply stable_refl.
  - rewrite (ensure_manager_absent _ _ _ Hmgr).
    destruct (client_config srv); intros [= <- <-]; [reflexivity | apply stable_refl].
Qed.

(** [initialize] past its guard: the log call of line 204 hands the
    logger two values, so it raises, and that is all [initialize] does. *)
Lemma initialize_past_guard srv fuel force self w :
  initialized self && negb force = false ->
  initialize srv fuel force (self, w)
  = (Raises (log_fault srv INFO [PyStr (name self); PyStr (_deployment_name self)]),
     (self, w)).
Proof.
  intros Hguard. unfold initialize. rewrite bind_get_self, Hguard.
  unfold bind at 1. by rewrite in_world_spec.
Qed.

End K8sFacts.

(** * The adapter against its specification *)

Module K8sSpec.
Import K8s K8sFacts.

(** C6.  Idempotency guard.  On a controller that is already initialized,
    [initialize(force=False)] returns at once: the adapter and the world
    (requests issued, clock, log) are what they were, whatever the server
    and however much fuel the readiness loop is given. *)
Theorem initialize_guard srv fuel self w :
  initialized self = true ->
  initialize srv fuel false (self, w) = (Returns tt, (self, w)).
Proof.
  intros Hready. unfold initialize, bind, get_self. simpl.
  by rewrite Hready.
Qed.

Lemma initialize_guard_witness :
  initialize (failing_apiserver 500) 0 false (warm_agent, fresh_world)
  = (Returns tt, (warm_agent, fresh_world)).
Proof. apply (initialize_guard (failing_apiserver 500) 0 warm_agent fresh_world). reflexivity. Defined.

(** C8, as the code has it.  With the persistence flag set, [shutdown]
    logs two lines and returns: it issues no request at all, the clock
    does not move, and the adapter is left exactly as it was; in
    particular [initialized] keeps its value. *)
Theorem shutdown_with_persistence srv self w :
  connection_persistence self = Some true ->
  shutdown srv (self, w)
  = (Returns tt,
     (self,
      {| requests := requests w; clock := clock w;
         log := log w
                ++ [(INFO, "K8sAgentAdapter shutting down agent %s");
                    (INFO, "connection_persistence=True, leaving deployment %s running")] |})).
Proof.
  intros Hkeep. unfold shutdown, bind, in_world, logger, get_self. simpl.
  rewrite Hkeep. simpl. by rewrite <- app_assoc.
Qed.

Lemma shutdown_with_persistence_witness :
  shutdown (failing_apiserver 500) (warm_agent, fresh_world)
  = (Returns tt,
     (warm_agent,
      {| requests := []; clock := 0;
         log := [(INFO, "K8sAgentAdapter shutting down agent %s");
                 (INFO, "connection_persistence=True, leaving deployment %s running")] |})).
Proof.
  apply (shutdown_with_persistence (failing_apiserver 500) warm_agent fresh_world).
  reflexivity.
Defined.

(** C8, as stated, fails: a provisioned adapter whose persistence flag is
    set is still initialized after [shutdown], it is the very same object,
    and a following [initialize(force=False)] is a no-op.  No transition
    to a terminal condition has taken place. *)
Lemma shutdown_with_persistence_stays_ready :
  connection_persistence warm_agent = Some true
  ∧ initialized (fst (snd (shutdown (failing_apiserver 500) (warm_agent, fresh_world)))) = true
  ∧ fst (snd (shutdown (failing_apiserver 500) (warm_agent, fresh_world))) = warm_agent
  ∧ initialize (failing_apiserver 500) 0 false
      (snd (shutdown (failing_apiserver 500) (warm_agent, fresh_world)))
    = (Returns tt, snd (shutdown (failing_apiserver 500) (warm_agent, fresh_world))).
Proof. repeat split. Qed.

(** The shape that both delete helpers share, answer by answer. *)
Lemma delete_outcome_cases (a : answer) (e1 : Z -> exn) (w1 w2 : world) :
  let r := match a with
           | Reply _ => (@Returns unit tt, w1)
           | Fault (ApiException status) =>
               if status =? 404 then (Returns tt, w2) else (Raises (e1 status), w1)
           | Fault e => (Raises e, w1)
           end in
  (a = Fault (ApiException 404) -> fst r = Returns tt)
  ∧ (is_raise (fst r) ↔ ∃ e, a = Fault e ∧ e ≠ ApiException 404)
  ∧ (¬ is_raise (fst r) -> fst r = Returns tt)
  ∧ (∀ e, a = Fault e -> (∀ status, e ≠ ApiException status) -> fst r = Raises e)
  ∧ (∀ status, a = Fault (ApiException status) -> status ≠ 404 ->
               fst r = Raises (e1 status))
  ∧ (requests w2 = requests w1 -> requests (snd r) = requests w1).
Proof.
  cbv zeta. split_and!.
  - by intros ->.
  - split.
    + destruct a as [r | [st| | | | | | |]]; simpl; try done; try (intros _; by eexists).
      destruct (st =? 404) eqn:E; simpl; [done |]. intros _. eexists. split; [done |].
      intros [= ->]. discriminate.
    + intros (e & -> & Hne). destruct e as [st| | | | | | |]; simpl; try done.
      destruct (st =? 404) eqn:E; simpl; [| done].
      apply Z.eqb_eq in E. by subst.
  - destruct a as [r | [st| | | | | | |]]; simpl; try done.
    by destruct (st =? 404).
  - intros e -> Hne. destruct e as [st| | | | | | |]; try reflexivity.
    by destruct (Hne st).
  - intros st -> Hne. replace (st =? 404) with false by lia. reflexivity.
  - intros Hreq. destruct a as [r | [st| | | | | | |]]; simpl; try done.
    by destruct (st =? 404).
Qed.

(** C3.  Error contract of [delete_deployment] and [delete_hpa].  Each
    issues one delete request.  An answer of 404 is a no-op success: it
    is logged at debug level and the call returns.  The call raises
    exactly when the request fails with a fault other than 404, and
    returns otherwise.  A failure that is no [ApiException] reaches the
    caller as it is.  For an [ApiException] other than 404 the [except]
    clause goes on to its warning, a log call with two values, and what
    reaches the caller is the exception of that call. *)
Theorem delete_error_contract srv mgr name w :
  let qd := delete_namespaced_deployment name (namespace mgr) in
  let qh := delete_namespaced_horizontal_pod_autoscaler name (namespace mgr) in
  let rd := delete_deployment srv mgr name w in
  let rh := delete_hpa srv mgr name w in
  (respond srv (requests w) qd = Fault (ApiException 404) -> fst rd = Returns tt)
  ∧ (respond srv (requests w) qh = Fault (ApiException 404) -> fst rh = Returns tt)
  ∧ (is_raise (fst rd) ↔ ∃ e, respond srv (requests w) qd = Fault e ∧ e ≠ ApiException 404)
  ∧ (is_raise (fst rh) ↔ ∃ e, respond srv (requests w) qh = Fault e ∧ e ≠ ApiException 404)
  ∧ (¬ is_raise (fst rd) -> fst rd = Returns tt)
  ∧ (¬ is_raise (fst rh) -> fst rh = Returns tt)
  ∧ (∀ e, respond srv (requests w) qd = Fault e ->
          (∀ status, e ≠ ApiException status) -> fst rd = Raises e)
  ∧ (∀ e, respond srv (requests w) qh = Fault e ->
          (∀ status, e ≠ ApiException status) -> fst rh = Raises e)
  ∧ (∀ status, respond srv (requests w) qd = Fault (ApiException status) ->
               status ≠ 404 ->
               fst rd = Raises (log_fault srv WARNING
                                  [PyStr name; PyExn (ApiException status)]))
  ∧ (∀ status, respond srv (requests w) qh = Fault (ApiException status) ->
               status ≠ 404 ->
               fst rh = Raises (log_fault srv WARNING
                                  [PyStr name; PyExn (ApiException status)]))
  ∧ requests (snd rd) = requests w ++ [qd]
  ∧ requests (snd rh) = requests w ++ [qh].
Proof.
  cbv zeta. rewrite delete_deployment_spec, delete_hpa_spec. cbv zeta.
  set (qd := delete_namespaced_deployment name (namespace mgr)).
  set (qh := delete_namespaced_horizontal_pod_autoscaler name (namespace mgr)).
  pose proof (delete_outcome_cases (respond srv (requests w) qd)
                (λ status, log_fault srv WARNING [PyStr name; PyExn (ApiException status)])
                {| requests := requests w ++ [qd];
                   clock := clock w + Z.of_N (latency srv (requests w) qd);
                   log := log w |}
                {| requests := requests w ++ [qd];
                   clock := clock w + Z.of_N (latency srv (requests w) qd);
                   log := log w ++ [(DEBUG, "Deployment %s not found during delete")] |})
    as (Hd1 & Hd2 & Hd3 & Hd4 & Hd5 & Hd6).
  pose proof (delete_outcome_cases (respond srv (requests w) qh)
                (λ status, log_fault srv WARNING [PyStr name; PyExn (ApiException status)])
                {| requests := requests w ++ [qh];
                   clock := clock w + Z.of_N (latency srv (requests w) qh);
                   log := log w |}
                {| requests := requests w ++ [qh];
                   clock := clock w + Z.of_N (latency srv (requests w) qh);
                   log := log w ++ [(DEBUG, "HPA %s not found during delete")] |})
    as (Hh1 & Hh2 & Hh3 & Hh4 & Hh5 & Hh6).
  cbv beta zeta in Hd1, Hd2, Hd3, Hd4, Hd5, Hd6, Hh1, Hh2, Hh3, Hh4, Hh5, Hh6.
  split_and!;
    [exact Hd1 | exact Hh1 | exact Hd2 | exact Hh2 | exact Hd3 | exact Hh3
     | exact Hd4 | exact Hh4 | exact Hd5 | exact Hh5 | by apply Hd6 | by apply Hh6].
Qed.

(** C2, as the code has it.  [scale] validates nothing.  Provided the
    adapter has, or can build, its manager, it issues exactly one scale
    patch carrying the replica count it was given, whatever its sign.  It
    returns when the server accepts that request and raises when the
    request fails: a failure that is no [ApiException] as it is, and for
    an [ApiException] the exception of the error log on line 113, a log
    call with two values that comes before the bare [raise]. *)
Theorem scale_delegates_unchecked srv replicas self w :
  client_config srv = true ∨ is_Some (_k8s_manager self) ->
  requests (snd (snd (scale srv replicas (self, w))))
  = requests w
    ++ [patch_namespaced_deployment_scale (_deployment_name self)
          (manager_namespace self) replicas]
  ∧ fst (scale srv replicas (self, w))
    = match respond srv (requests w)
              (patch_namespaced_deployment_scale (_deployment_name self)
                 (manager_namespace self) replicas) with
      | Reply _ => Returns tt
      | Fault (ApiException status) =>
          Raises (log_fault srv ERROR
                    [PyStr (_deployment_name self); PyExn (ApiException status)])
      | Fault e => Raises e
      end.
Proof.
  intros Hok.
  destruct (ensure_manager_ok srv self w Hok) as (self' & Hens & Hsame & Hmgr).
  unfold scale. rewrite (bind_returns _ _ _ _ _ Hens), bind_get_self.
  rewrite (bind_returns _ _ _ _ _ (the_manager_some _ _ _ Hmgr)).
  unfold run_in_executor. rewrite in_world_spec, scale_deployment_spec. cbv zeta. simpl.
  assert (Hname : _deployment_name self' = _deployment_name self)
    by (rewrite Hsame; reflexivity).
  assert (Hns : namespace (default {| namespace := k8s_namespace self; kubeconfig := None |}
                             (_k8s_manager self)) = manager_namespace self)
    by (unfold manager_namespace; by destruct (_k8s_manager self)).
  rewrite Hname, Hns. by split.
Qed.

Lemma scale_delegates_unchecked_witness :
  requests (snd (snd (scale (slow_empty_apiserver 0) (-1) (demo_agent, fresh_world))))
  = requests fresh_world
    ++ [patch_namespaced_deployment_scale (_deployment_name demo_agent)
          (manager_namespace demo_agent) (-1)]
  ∧ fst (scale (slow_empty_apiserver 0) (-1) (demo_agent, fresh_world))
    = match respond (slow_empty_apiserver 0) (requests fresh_world)
              (patch_namespaced_deployment_scale (_deployment_name demo_agent)
                 (manager_namespace demo_agent) (-1)) with
      | Reply _ => Returns tt
      | Fault (ApiException status) =>
          Raises (log_fault (slow_empty_apiserver 0) ERROR
                    [PyStr (_deployment_name demo_agent); PyExn (ApiException status)])
      | Fault e => Raises e
      end.
Proof.
  apply (scale_delegates_unchecked (slow_empty_apiserver 0) (-1) demo_agent fresh_world).
  left. reflexivity.
Defined.

(** C2, as stated, fails: [scale(-1)] sends the patch with -1 replicas
    to the server.  A server that accepts everything makes the call
    return normally, and on the well-behaved server too the request has
    been issued when the call ends. *)
Lemma scale_negative_reaches_server :
  scale (slow_empty_apiserver 0) (-1) (demo_agent, fresh_world)
  = (Returns tt,
     (set_k8s_manager (Some {| namespace := "default"; kubeconfig := None |}) demo_agent,
      {| requests := [patch_namespaced_deployment_scale "mcp-agent-k8s-demo-agent"
                        "default" (-1)];
         clock := 0; log := [] |}))
  ∧ requests (snd (snd (scale (kube_apiserver empty_cluster) (-1) (demo_agent, fresh_world))))
    = [patch_namespaced_deployment_scale "mcp-agent-k8s-demo-agent" "default" (-1)].
Proof. split_and!; reflexivity. Qed.

(** Scenario 2 of the design document on the well-behaved server,
    starting from an empty store: the first call reads and creates, the
    second reads and patches, and both return. *)
Example reconcile_twice_on_empty_cluster :
  let mgr := {| namespace := "default"; kubeconfig := None |} in
  let body := build_deployment "demo" "x" [("app", "demo")] None 1 None [] in
  let first := create_deployment (kube_apiserver empty_cluster) mgr "demo" "x"
                 [("app", "demo")] None 1 None None fresh_world in
  let second := create_deployment (kube_apiserver empty_cluster) mgr "demo" "x"
                  [("app", "demo")] None 1 None None (snd first) in
  fst first = Returns tt
  ∧ fst second = Returns tt
  ∧ requests (snd second)
    = [read_namespaced_deployment "demo" "default";
       create_namespaced_deployment "default" body;
       read_namespaced_deployment "demo" "default";
       patch_namespaced_deployment "demo" "default" body].
Proof. vm_compute. split_and!; reflexivity. Qed.

(** C5, as stated, fails.  The [resources] of the spec are unpacked as
    keyword arguments of [V1ResourceRequirements] on line 75, before the
    [try].  A mapping from a resource name to a quantity, such as
    [{"cpu": "500m"}], is a [TypeError] there: [create_deployment] raises
    without reading the deployment, or issuing any request at all. *)
Lemma reconcile_rejects_resource_names :
  create_deployment (kube_apiserver empty_cluster)
    {| namespace := "default"; kubeconfig := None |} "demo" "x" [("app", "demo")]
    None 1 None (Some [("cpu", PyStr "500m")]) fresh_world
  = (Raises TypeError, fresh_world).
Proof. reflexivity. Qed.

(** C5, as the code has it.  Let every key of [resources] be a keyword
    parameter of [V1ResourceRequirements] ([limits], [requests],
    [claims]; see [resource_keywords]).  Then [create_deployment] first reads the deployment by
    name.  When the read answers 404 it issues a create and nothing
    else; when the read finds the deployment it issues a patch next, and
    when that patch is accepted nothing else follows.  The body sent
    either way carries the replica count, the container with its image,
    environment and resources, and the labels.  On the well-behaved
    server a second call with the same arguments succeeds through read
    and patch, with no create, and leaves the stored deployments as the
    first call left them. *)
Theorem reconcile_read_then_write srv mgr name img labels port n envs res w :
  Forall (λ kv, fst kv ∈ resource_keywords) (default [] res) ->
  let ns := namespace mgr in
  let body := build_deployment name img labels port n envs (default [] res) in
  let read := read_namespaced_deployment name ns in
  let patch := patch_namespaced_deployment name ns body in
  let create := create_namespaced_deployment ns body in
  let r := create_deployment srv mgr name img labels port n envs res w in
  (∃ rest, requests (snd r) = requests w ++ read :: rest)
  ∧ (respond srv (requests w) read = Fault (ApiException 404) ->
     requests (snd r) = requests w ++ [read; create]
     ∧ fst r = match respond srv (requests w ++ [read]) create with
               | Reply _ => Returns tt
               | Fault e => Raises e
               end)
  ∧ (∀ d, respond srv (requests w) read = Reply d ->
          (∃ rest, requests (snd r) = requests w ++ read :: patch :: rest)
          ∧ (∀ d', respond srv (requests w ++ [read]) patch = Reply d' ->
                   requests (snd r) = requests w ++ [read; patch]
                   ∧ fst r = Returns tt))
  ∧ (replicas (spec body) = n
     ∧ selector (spec body) = labels
     ∧ containers (template_spec (template (spec body)))
       = [{| container_name := name; image := img;
             env := match envs with
                    | Some (_ :: _ as e) =>
                        map (λ kv, {| env_name := fst kv; env_value := snd kv |}) e
                    | _ => []
                    end;
             resources := default [] res;
             ports := match port with
                      | Some p => if p =? 0 then None else Some [p]
                      | None => None
                      end |}])
  ∧ (∀ init w0,
       let first := create_deployment (kube_apiserver init) mgr name img labels port n envs res w0 in
       let second := create_deployment (kube_apiserver init) mgr name img labels port n envs res
                       (snd first) in
       fst first = Returns tt
       ∧ fst second = Returns tt
       ∧ requests (snd second) = requests (snd first) ++ [read; patch]
       ∧ deployments (replay (requests (snd second)) init)
         = deployments (replay (requests (snd first)) init)).
Proof.
  intros Hres. cbv zeta.
  pose proof (create_deployment_spec srv mgr name img labels port n envs res w Hres) as Hspec.
  cbv zeta in Hspec.
  split_and!.
  - destruct (respond srv (requests w) _) as [d | e].
    + destruct (respond srv (requests w ++ [_]) _) as [d' | e].
      * injection Hspec as _ ->. rewrite <- app_assoc. by eexists.
      * destruct e as [st| | | | | | |]; try destruct (st =? 404);
          injection Hspec as _ ->; rewrite <- ?app_assoc; by eexists.
    + destruct e as [st| | | | | | |]; try destruct (st =? 404);
        injection Hspec as _ ->; rewrite <- ?app_assoc; by eexists.
  - intros Hread. rewrite Hread in Hspec. simpl in Hspec.
    injection Hspec as -> ->. by rewrite <- app_assoc.
  - intros d Hread. rewrite Hread in Hspec. split.
    + destruct (respond srv (requests w ++ [_]) _) as [d' | e].
      * injection Hspec as _ ->. rewrite <- app_assoc. by eexists.
      * destruct e as [st| | | | | | |]; try destruct (st =? 404);
          injection Hspec as _ ->; rewrite <- ?app_assoc; by eexists.
    + intros d' Hpatch. rewrite Hpatch in Hspec.
      injection Hspec as -> ->. by rewrite <- app_assoc.
  - reflexivity.
  - reflexivity.
  - reflexivity.
  - intros init w0.
    destruct (create_deployment_on_cluster init mgr name img labels port n envs res w0 Hres)
      as (Ho1 & Hr1 & Hc1).
    destruct (create_deployment_on_cluster init mgr name img labels port n envs res
                (snd (create_deployment (kube_apiserver init) mgr name img labels port n envs
                        res w0)) Hres)
      as (Ho2 & Hr2 & Hc2).
    cbv zeta in *. split_and!; [done | done | |].
    + rewrite Hr2, Hc1, lookup_insert_eq. reflexivity.
    + rewrite Hc2, Hc1. apply insert_insert_eq.
Qed.

Lemma reconcile_read_then_write_witness :
  ∃ rest,
    requests (snd (create_deployment (kube_apiserver empty_cluster)
                     {| namespace := "default"; kubeconfig := None |} "demo" "x"
                     [("app", "demo")] None 1 None
                     (Some [("limits", PyDict [("cpu", "1")])]) fresh_world))
    = requests fresh_world ++ read_namespaced_deployment "demo" "default" :: rest.
Proof.
  apply (reconcile_read_then_write (kube_apiserver empty_cluster)
           {| namespace := "default"; kubeconfig := None |} "demo" "x"
           [("app", "demo")] None 1 None (Some [("limits", PyDict [("cpu", "1")])])
           fresh_world).
  apply Forall_cons. split; [| by apply Forall_nil].
  unfold resource_keywords. cbn. apply list_elem_of_further, list_elem_of_here.
Defined.

(** C4, as the code has it.  Let the timeout be non-negative, the
    adapter have or be able to build its manager, every poll complete
    and find nothing (each listing is answered with pods that all have a
    status and of which none has a Ready condition of status True), and
    every call take at most [L] ticks of the clock.  Then, given fuel for
    [timeout/2 + 2] iterations, [_wait_for_pod_ready] raises
    [TimeoutError], at an elapsed time that exceeds the timeout and is at
    most the timeout plus the poll interval of 2 plus [L]. *)
Theorem wait_ready_times_out srv L fuel timeout_seconds self w :
  0 ≤ timeout_seconds ->
  client_config srv = true ∨ is_Some (_k8s_manager self) ->
  (∀ h ns sel, unready_listing (respond srv h (list_namespaced_pod ns sel))) ->
  (∀ h rq, Z.of_N (latency srv h rq) ≤ L) ->
  (Z.to_nat (timeout_seconds / 2) + 2 ≤ fuel)%nat ->
  fst (_wait_for_pod_ready srv fuel timeout_seconds (self, w))
  = Raises (TimeoutError "Timed out waiting for pod to become ready")
  ∧ timeout_seconds
    < clock (snd (snd (_wait_for_pod_ready srv fuel timeout_seconds (self, w)))) - clock w
    ≤ timeout_seconds + 2 + L.
Proof.
  intros Htimeout Hok Hquiet Hlat Hfuel.
  assert (0 ≤ L) by (specialize (Hlat [] (list_namespaced_pod "" "")); lia).
  destruct (ensure_manager_ok srv self w Hok) as (self' & Hens & _ & Hmgr).
  pose proof (Z.mul_div_le timeout_seconds 2 ltac:(lia)) as Hdiv.
  pose proof (Z.mod_pos_bound timeout_seconds 2 ltac:(lia)) as Hmod.
  pose proof (Z.div_mod timeout_seconds 2 ltac:(lia)) as Heq.
  assert (0 ≤ timeout_seconds / 2) by (apply Z.div_pos; lia).
  destruct (wait_loop_times_out srv L timeout_seconds (clock w) Hquiet Hlat fuel self' w _ Hmgr)
    as (w' & Hloop & Hbound); [lia | lia | lia | lia |].
  assert (Hrun : _wait_for_pod_ready srv fuel timeout_seconds (self, w)
                 = (Raises (TimeoutError "Timed out waiting for pod to become ready"),
                    (self', w'))).
  { unfold _wait_for_pod_ready. rewrite (bind_returns _ _ _ _ _ Hens).
    unfold bind at 1. rewrite in_world_spec. simpl. exact Hloop. }
  rewrite Hrun. simpl. split; [reflexivity | exact Hbound].
Qed.

Lemma wait_ready_times_out_witness :
  fst (_wait_for_pod_ready (slow_empty_apiserver 0) 4 5 (demo_agent, fresh_world))
  = Raises (TimeoutError "Timed out waiting for pod to become ready")
  ∧ 5 < clock (snd (snd (_wait_for_pod_ready (slow_empty_apiserver 0) 4 5
                           (demo_agent, fresh_world)))) - clock fresh_world
    ≤ 5 + 2 + 0.
Proof.
  apply (wait_ready_times_out (slow_empty_apiserver 0) 0 4 5 demo_agent fresh_world).
  - lia.
  - left. reflexivity.
  - intros h ns sel. by exists [].
  - intros h rq. simpl. lia.
  - vm_compute. lia.
Defined.

(** C4, as stated, fails in its upper bound: with a timeout of 5 and a
    server that never shows a pod and takes 10 ticks to answer a listing,
    the [TimeoutError] comes 12 ticks after the call began, later than
    timeout plus poll interval. *)
Lemma wait_ready_overshoots :
  fst (_wait_for_pod_ready (slow_empty_apiserver 10) 3 5 (demo_agent, fresh_world))
  = Raises (TimeoutError "Timed out waiting for pod to become ready")
  ∧ clock (snd (snd (_wait_for_pod_ready (slow_empty_apiserver 10) 3 5
                       (demo_agent, fresh_world)))) - clock fresh_world = 12
  ∧ ¬ (12 ≤ 5 + 2).
Proof. split_and!; [reflexivity | reflexivity | lia]. Qed.



End K8sSpec.

(** * Further properties of the rate limiter *)

Module LimiterExtra.
Import RateLimiter LimiterTasks LimiterFacts TaskFacts.

(** One more step of a concrete run. *)
Ltac forward r next :=
  lazymatch type of r with
  | reachable ?lim ?start ?s =>
      let stp := next s in
      let r' := fresh "r" in
      pose proof (reach_step lim start s _ r stp) as r';
      cbv in r'; clear r; rename r' into r
  end.

Lemma entered_reachable :
  reachable {| max_calls := 1; period := 10; _events := []; _lock := None |} 0 entered.
Proof.
  pose proof (reach_boot {| max_calls := 1; period := 10; _events := []; _lock := None |} 0) as r.
  cbv in r.
  forward r ltac:(fun s => constr:(step_call s)).
  forward r ltac:(fun s => constr:(step_entry s 0%nat eq_refl)).
  forward r ltac:(fun s => constr:(step_lock s 0%nat eq_refl eq_refl)).
  exact r.
Qed.

Lemma blocked_reachable :
  reachable {| max_calls := 1; period := 10; _events := []; _lock := None |} 0 blocked.
Proof.
  pose proof entered_reachable as r. cbv in r.
  forward r ltac:(fun s => constr:(step_block s 0%nat eq_refl)).
  forward r ltac:(fun s => constr:(step_return s 0%nat eq_refl)).
  forward r ltac:(fun s => constr:(step_call s)).
  forward r ltac:(fun s => constr:(step_tick s 3 ltac:(lia))).
  forward r ltac:(fun s => constr:(step_entry s 1%nat eq_refl)).
  forward r ltac:(fun s => constr:(step_lock s 1%nat eq_refl eq_refl)).
  forward r ltac:(fun s => constr:(step_block s 1%nat eq_refl)).
  exact r.
Qed.

(** X1.  Mutual exclusion.  In every reachable state of the tasks that
    share a limiter, at most one task is inside the [async with] block:
    two tasks whose program counters are both inside it are the same
    task. *)
Theorem one_task_in_block K T lim start s t1 t2 p1 p2 :
  __init__ K T = Returns lim ->
  reachable lim start s ->
  tasks s !! t1 = Some p1 -> holds_lock p1 = true ->
  tasks s !! t2 = Some p2 -> holds_lock p2 = true ->
  t1 = t2.
Proof.
  intros Hinit Hreach Hp1 Hh1 Hp2 Hh2.
  destruct (lock_invariant_reachable K T lim start s Hinit Hreach) as [_ Hunique _].
  pose proof (Hunique t1 p1 Hp1 Hh1) as H1.
  pose proof (Hunique t2 p2 Hp2 Hh2) as H2.
  congruence.
Qed.

Lemma one_task_in_block_witness : 1%nat = 1%nat.
Proof.
  apply (one_task_in_block 1 10
           {| max_calls := 1; period := 10; _events := []; _lock := None |} 0 blocked
           1%nat 1%nat (LeaveWait 7) (LeaveWait 7) eq_refl blocked_reachable);
    reflexivity.
Defined.

Lemma filter_all {A} (P : A -> Prop) `{∀ x, Decision (P x)} (l : list A) :
  Forall P l -> filter P l = l.
Proof.
  induction 1 as [|x l Hx _ IH]; [reflexivity |].
  rewrite filter_cons_True by assumption. by rewrite IH.
Qed.

(** X2.  The deque is the recent part of the log.  In every reachable
    state the timestamps in [_events] are exactly the completed
    acquisitions, in order, that are less than [T] old at the clock
    reading at which the block last ran. *)
Theorem events_are_recent_grants K T lim start s :
  __init__ K T = Returns lim ->
  reachable lim start s ->
  _events (limiter s) = filter (λ g, last_now s - T < g) (granted s).
Proof.
  intros Hinit Hreach.
  destruct (limiter_invariant_reachable K T lim start s Hinit Hreach)
    as [[_ _ _ _ Hrecent _ (old & Hlog & Hold) _] _].
  rewrite Hlog, filter_app, (filter_none _ old), (filter_all _ (_events (limiter s))).
  - reflexivity.
  - eapply Forall_impl; [exact Hrecent |]. simpl. intros; lia.
  - eapply Forall_impl; [exact Hold |]. simpl. intros; lia.
Qed.

Lemma events_are_recent_grants_witness :
  _events (limiter blocked) = filter (λ g, last_now blocked - 10 < g) (granted blocked).
Proof.
  apply (events_are_recent_grants 1 10
           {| max_calls := 1; period := 10; _events := []; _lock := None |} 0 blocked
           eq_refl blocked_reachable).
Defined.

Ltac which_task H Heq :=
  apply list_lookup_insert_Some in H as [(_ & Heq & _) | (_ & H)].

(** X3.  The computed wait.  Whenever a task leaves the block to sleep,
    in any reachable state, its [wait_time] is positive and at most the
    window [T]; the [max(wait_time, 0)] of line 50 never has to clamp. *)
Theorem wait_time_bounds K T lim start s :
  __init__ K T = Returns lim ->
  reachable lim start s ->
  ∀ t w, tasks s !! t = Some (LeaveWait w) -> 0 < w ≤ T.
Proof.
  intros Hinit Hreach. induction Hreach as [| s s' Hreach IH Hstep].
  - intros t w Hp. simpl in Hp. done.
  - destruct Hstep as [s | s d Hd | s t Ht | s t Ht Hfree | s t Ht
                      | s t Ht | s t e Ht | s t w0 Ht | s t until Ht Hdue];
      simpl; intros t' w Hp; try (by eapply IH).
    + apply lookup_snoc_Some in Hp as [[_ Hp] | [_ [=]]]. by eapply IH.
    + destruct (_lock (limiter s)); simpl in Hp;
        (which_task Hp Heq; [discriminate | by eapply IH]).
    + which_task Hp Heq; [discriminate | by eapply IH].
    + rewrite run_block_tasks in Hp. which_task Hp Heq; [| by eapply IH].
      destruct (limiter_invariant_reachable K T lim start s Hinit Hreach) as [Hinv Hclock].
      destruct (critical_section (clock s) (limiter s)) as [o lim'] eqn:Hcs.
      pose proof (critical_section_invariant K T _ _ _ _ _ _ Hinv Hclock Hcs) as Hnext.
      destruct Hinv as [HK HT _ _ _ _ _ _].
      assert (0 < K).
      { unfold __init__ in Hinit. destruct (K <=? 0) eqn:E; [discriminate | lia]. }
      destruct (critical_section_cases (clock s) (limiter s)) as
        [[_ Hgrant] | (oldest & rest & Hev & _ & Hwait)]; [lia | |];
        rewrite Hcs in *.
      * injection Hgrant as -> _. simpl in Heq. discriminate.
      * injection Hwait as -> ->. simpl in Heq. injection Heq as <-.
        destruct Hnext as [_ _ _ _ Hrecent _ _ _]. simpl in Hrecent.
        rewrite Hev in Hrecent. inversion Hrecent; subst. lia.
    + which_task Hp Heq; [discriminate | by eapply IH].
    + which_task Hp Heq; [discriminate | by eapply IH].
    + which_task Hp Heq; [discriminate | by eapply IH].
    + which_task Hp Heq; [discriminate | by eapply IH].
Qed.

Lemma wait_time_bounds_witness : 0 < 7 ≤ 10.
Proof.
  apply (wait_time_bounds 1 10
           {| max_calls := 1; period := 10; _events := []; _lock := None |} 0 blocked
           eq_refl blocked_reachable 1%nat 7 eq_refl).
Defined.

(** X4.  The lock is never stuck.  In every reachable state in which a
    task holds the lock, that task can leave the block by steps of its own
    that wait for nothing, neither for the clock nor for another task: one
    step when the body has run, two when it has not; after them the lock
    is free. *)
Theorem lock_holder_leaves K T lim start s t :
  __init__ K T = Returns lim ->
  reachable lim start s ->
  _lock (limiter s) = Some (Some t) ->
  ∃ s', step s s'
        ∧ (_lock (limiter s') = Some None
           ∨ ∃ s'', step s' s'' ∧ _lock (limiter s'') = Some None).
Proof.
  intros Hinit Hreach Hlock.
  destruct (lock_invariant_reachable K T lim start s Hinit Hreach) as [Hholder _ _].
  destruct (Hholder t Hlock) as (p & Hp & Hh).
  destruct p as [| | | | w | e | until | | e]; try discriminate.
  - exists (run_block t s). split; [by apply step_block |]. right.
    assert (Hlen : (t < length (tasks s))%nat) by (by eapply lookup_lt_Some).
    assert (Hat : tasks (run_block t s) !! t
                  = Some (after_block (fst (critical_section (clock s) (limiter s)))))
      by (rewrite run_block_tasks; by apply list_lookup_insert_eq).
    destruct (limiter_invariant_reachable K T lim start s Hinit Hreach)
      as [[HK _ _ _ _ _ _ _] _].
    assert (0 < K).
    { unfold __init__ in Hinit. destruct (K <=? 0) eqn:E; [discriminate | lia]. }
    destruct (critical_section_returns (clock s) (limiter s)) as [v Hv]; [lia |].
    rewrite Hv in Hat. destruct v as [|w]; simpl in Hat.
    + eexists. split; [by apply step_return | reflexivity].
    + eexists. split; [by eapply step_sleep | reflexivity].
  - eexists. split; [by apply step_return |]. by left.
  - eexists. split; [by eapply step_sleep |]. by left.
  - eexists. split; [by eapply step_unwind |]. by left.
Qed.

Lemma lock_holder_leaves_witness :
  ∃ s', step blocked s'
        ∧ (_lock (limiter s') = Some None
           ∨ ∃ s'', step s' s'' ∧ _lock (limiter s'') = Some None).
Proof.
  apply (lock_holder_leaves 1 10
           {| max_calls := 1; period := 10; _events := []; _lock := None |} 0 blocked
           1%nat eq_refl blocked_reachable eq_refl).
Defined.




Lemma evict_same_instant T now j :
  0 < T -> evict T now (replicate j now) = replicate j now.
Proof.
  intros HT. destruct j as [|j]; [reflexivity |]. simpl.
  destruct (now - now >=? T) eqn:E; [lia | reflexivity].
Qed.

Lemma replicate_snoc {A} (j : nat) (x : A) : replicate j x ++ [x] = replicate (S j) x.
Proof. induction j as [|j IH]; [reflexivity |]. simpl. by rewrite IH. Qed.

(** A burst of attempts at one clock reading, on a deque that already
    holds [j] timestamps of that reading. *)
Lemma run_burst now n :
  ∀ j lim log,
    0 < period lim -> _events lim = replicate j now ->
    snd (run (replicate n now) lim log)
    = log ++ replicate (n `min` (Z.to_nat (max_calls lim) - j)) now.
Proof.
  induction n as [|n IH]; intros j lim log HT Hev.
  - simpl. by rewrite app_nil_r.
  - change (replicate (S n) now) with (now :: replicate n now). cbn [run].
    unfold critical_section. rewrite Hev, (evict_same_instant _ _ _ HT), length_replicate.
    destruct (Z.of_nat j <? max_calls lim) eqn:Hfree.
    + apply Z.ltb_lt in Hfree.
      rewrite (IH (S j)); [| exact HT | simpl; by rewrite replicate_snoc].
      simpl. rewrite <- app_assoc. simpl.
      replace (Z.to_nat (max_calls lim) - j)%nat
        with (S (Z.to_nat (max_calls lim) - S j)) by lia.
      reflexivity.
    + apply Z.ltb_ge in Hfree.
      replace (Z.to_nat (max_calls lim) - j)%nat with 0%nat by lia.
      rewrite Nat.min_0_r.
      assert (Hrest : ∀ lim', period lim' = period lim -> max_calls lim' = max_calls lim ->
                              _events lim' = replicate j now ->
                              snd (run (replicate n now) lim' log) = log ++ []).
      { intros lim' HT' HK' Hev'. rewrite (IH j); [| lia | exact Hev'].
        rewrite HK'. replace (Z.to_nat (max_calls lim) - j)%nat with 0%nat by lia.
        by rewrite Nat.min_0_r. }
      destruct (replicate j now) eqn:Hrep; apply Hrest; simpl; congruence.
Qed.

(** X6.  A burst fills the window and no more.  Of [n] attempts made at
    one and the same clock reading on a freshly built limiter of capacity
    [K], the first [min n K] are granted and the others are not. *)
Theorem burst_is_capped K T lim n now :
  __init__ K T = Returns lim ->
  snd (run (replicate n now) lim []) = replicate (n `min` Z.to_nat K) now.
Proof.
  unfold __init__. intros Hinit.
  destruct (K <=? 0) eqn:HK; [discriminate |].
  destruct (T <=? 0) eqn:HT; [discriminate |].
  injection Hinit as <-.
  rewrite (run_burst now n 0); simpl; [| lia | reflexivity].
  by rewrite Nat.sub_0_r.
Qed.

Lemma burst_is_capped_witness :
  snd (run (replicate 5 0) {| max_calls := 3; period := 1000; _events := []; _lock := None |} [])
  = replicate (5 `min` Z.to_nat 3) 0.
Proof.
  apply (burst_is_capped 3 1000
           {| max_calls := 3; period := 1000; _events := []; _lock := None |} 5 0 eq_refl).
Defined.



End LimiterExtra.
(** * Further properties of the adapter *)

Module K8sExtra.
Import K8s K8sFacts.

(** How a call of [create_hpa] ends, answer by answer. *)
Lemma create_hpa_outcome srv mgr name lo hi cpu w :
  let rq := create_namespaced_horizontal_pod_autoscaler (namespace mgr)
              (build_hpa name lo hi cpu) in
  let r := create_hpa srv mgr name lo hi cpu w in
  (is_raise (fst r) ↔ ∃ e, respond srv (requests w) rq = Fault e ∧ e ≠ ApiException 409)
  ∧ (¬ is_raise (fst r) -> fst r = Returns tt)
  ∧ (∀ e, respond srv (requests w) rq = Fault e ->
          (∀ status, e ≠ ApiException status) -> fst r = Raises e)
  ∧ (∀ status, respond srv (requests w) rq = Fault (ApiException status) ->
               status ≠ 409 ->
               fst r = Raises (log_fault srv ERROR [PyStr name; PyExn (ApiException status)])
               ∧ log (snd r) = log w).
Proof.
  cbv zeta. rewrite create_hpa_spec. cbv zeta. simpl. split_and!.
  - split.
    + destruct (respond srv _ _) as [d | [st| | | | | | |]]; simpl; try done;
        try (intros _; by eexists).
      destruct (st =? 409) eqn:E; simpl; [done |]. intros _. eexists. split; [done |].
      intros [= ->]. discriminate.
    + intros (e & -> & Hne). destruct e as [st| | | | | | |]; simpl; try done.
      destruct (st =? 409) eqn:E; simpl; [| done].
      apply Z.eqb_eq in E. by subst.
  - destruct (respond srv _ _) as [d | [st| | | | | | |]]; simpl; try done.
    by destruct (st =? 409).
  - intros e -> Hne. destruct e as [st| | | | | | |]; try reflexivity.
    by destruct (Hne st).
  - intros st -> Hne. replace (st =? 409) with false by lia. by split.
Qed.

(** X8.  Error contract of [create_hpa].  It issues one create request
    for an autoscaler that targets the named deployment with the bounds
    and CPU target it was given.  An answer of 409, the autoscaler exists
    already, is logged at info level and the call returns.  The call
    raises exactly when the request fails otherwise.  A failure that is
    no [ApiException] is raised as it is.  For an [ApiException] of
    another status the [except] clause first logs an error, with two
    values, and it is that log call that raises: the bare [raise] behind
    it is not reached and nothing is logged. *)
Theorem create_hpa_conflict_is_benign srv mgr name lo hi cpu w :
  let rq := create_namespaced_horizontal_pod_autoscaler (namespace mgr)
              (build_hpa name lo hi cpu) in
  let r := create_hpa srv mgr name lo hi cpu w in
  requests (snd r) = requests w ++ [rq]
  ∧ (respond srv (requests w) rq = Fault (ApiException 409) ->
     fst r = Returns tt ∧ log (snd r) = log w ++ [(INFO, "HPA %s already exists")])
  ∧ (∀ d, respond srv (requests w) rq = Reply d -> fst r = Returns tt ∧ log (snd r) = log w)
  ∧ (is_raise (fst r) ↔ ∃ e, respond srv (requests w) rq = Fault e ∧ e ≠ ApiException 409)
  ∧ (∀ e, respond srv (requests w) rq = Fault e ->
          (∀ status, e ≠ ApiException status) -> fst r = Raises e)
  ∧ (∀ status, respond srv (requests w) rq = Fault (ApiException status) ->
               status ≠ 409 ->
               fst r = Raises (log_fault srv ERROR [PyStr name; PyExn (ApiException status)])
               ∧ log (snd r) = log w).
Proof.
  cbv zeta.
  destruct (create_hpa_outcome srv mgr name lo hi cpu w) as (Hiff & _ & Hother & Hapi).
  cbv zeta in Hiff, Hother, Hapi.
  split_and!; [| | | exact Hiff | exact Hother | exact Hapi].
  - by rewrite create_hpa_spec.
  - rewrite create_hpa_spec. cbv zeta. simpl. intros ->. by split.
  - rewrite create_hpa_spec. cbv zeta. simpl. intros d ->. by split.
Qed.

Lemma append_not_empty (a b : string) : a ≠ "" -> a +:+ b ≠ "".
Proof. destruct a; [done |]. intros _. discriminate. Qed.

Lemma concat_not_empty (sep x : string) (xs : list string) :
  x ≠ "" -> String.concat sep (x :: xs) ≠ "".
Proof.
  intros Hx. destruct xs as [|y ys]; [exact Hx |].
  change (x +:+ sep +:+ String.concat sep (y :: ys) ≠ ""). by apply append_not_empty.
Qed.

Lemma label_selector_not_empty labels : labels ≠ [] -> label_selector labels ≠ "".
Proof.
  destruct labels as [|[k v] rest]; [done |]. intros _.
  unfold label_selector. rewrite map_cons. apply concat_not_empty.
  simpl. destruct k; discriminate.
Qed.

(** X9.  Construction of the adapter.  The deployment is named
    ["mcp-agent-"] followed by the agent's name; labels given by the
    caller are kept and otherwise the single label [app] with the
    deployment name is used, so that the labels are never empty and the
    label selector of the readiness poll is never the empty selector that
    matches every pod; no manager is built yet. *)
Theorem adapter_labels_never_empty data :
  _deployment_name (K8sAgentAdapter__init__ data) = "mcp-agent-" +:+ name data
  ∧ _k8s_manager (K8sAgentAdapter__init__ data) = None
  ∧ (k8s_labels data ≠ [] -> k8s_labels (K8sAgentAdapter__init__ data) = k8s_labels data)
  ∧ (k8s_labels data = [] ->
     k8s_labels (K8sAgentAdapter__init__ data) = [("app", "mcp-agent-" +:+ name data)]
     ∧ label_selector (k8s_labels (K8sAgentAdapter__init__ data))
       = "app=mcp-agent-" +:+ name data)
  ∧ k8s_labels (K8sAgentAdapter__init__ data) ≠ []
  ∧ label_selector (k8s_labels (K8sAgentAdapter__init__ data)) ≠ "".
Proof.
  assert (Hne : k8s_labels (K8sAgentAdapter__init__ data) ≠ [])
    by (simpl; by destruct (k8s_labels data)).
  split_and!; try reflexivity.
  - intros Hgiven. simpl. by destruct (k8s_labels data).
  - intros Hnone. simpl. rewrite Hnone. by split.
  - exact Hne.
  - by apply label_selector_not_empty.
Qed.

(** X10.  The lazily built manager.  [_ensure_k8s_manager] issues no
    request and leaves the world as it is.  When it returns the adapter
    holds a manager, the one it held before if any and otherwise a new one
    for [k8s_namespace], and calling it again changes nothing.  It raises
    only when there is no manager and no client configuration can be
    loaded; what it raises is a [RuntimeError] and the adapter is
    unchanged. *)
Theorem ensure_manager_is_lazy srv self w :
  let r := _ensure_k8s_manager srv (self, w) in
  snd (snd r) = w
  ∧ (fst r = Returns tt ->
     _k8s_manager (fst (snd r))
     = Some (default {| namespace := k8s_namespace self; kubeconfig := None |}
               (_k8s_manager self))
     ∧ _ensure_k8s_manager srv (snd r) = (Returns tt, snd r))
  ∧ (∀ e, fst r = Raises e ->
          (∃ msg, e = RuntimeError msg)
          ∧ client_config srv = false ∧ _k8s_manager self = None
          ∧ fst (snd r) = self)
  ∧ fst r ≠ OutOfFuel.
Proof.
  cbv zeta. destruct (_k8s_manager self) as [mgr|] eqn:Hmgr.
  - rewrite (ensure_manager_present _ _ _ mgr Hmgr). simpl. rewrite Hmgr.
    split_and!; try done. intros _. split; [done |].
    by apply (ensure_manager_present _ _ _ mgr).
  - rewrite (ensure_manager_absent _ _ _ Hmgr).
    destruct (client_config srv) eqn:Hcfg; simpl; split_and!; try done.
    intros e [= <-]. split_and!; try done. by eexists.
Qed.

(** [shutdown] without the persistence flag, on an adapter that holds a
    manager: the two deletions in turn, then the reset of [initialized]. *)
Lemma shutdown_unfold srv self w mgr :
  default false (connection_persistence self) = false ->
  _k8s_manager self = Some mgr ->
  shutdown srv (self, w)
  = let w0 := {| requests := requests w; clock := clock w;
                 log := log w ++ [(INFO, "K8sAgentAdapter shutting down agent %s")] |} in
    let r1 := delete_hpa srv mgr (_deployment_name self) w0 in
    let r2 := delete_deployment srv mgr (_deployment_name self) (snd r1) in
    match fst r1 with
    | Returns _ =>
        match fst r2 with
        | Returns _ => (Returns tt, (set_initialized false self, snd r2))
        | Raises e => (Raises e, (self, snd r2))
        | OutOfFuel => (OutOfFuel, (self, snd r2))
        end
    | Raises e => (Raises e, (self, snd r1))
    | OutOfFuel => (OutOfFuel, (self, snd r1))
    end.
Proof.
  intros Hkeep Hmgr. unfold shutdown. rewrite bind_get_self.
  unfold bind at 1. rewrite in_world_spec.
  simpl fst. simpl snd. rewrite Hkeep, Hmgr. cbv zeta.
  unfold bind, run_in_executor. rewrite in_world_spec. simpl fst. simpl snd.
  destruct (delete_hpa srv mgr _ _) as [[[]|e|] w1]; simpl; try reflexivity.
  rewrite in_world_spec. simpl.
  by destruct (delete_deployment srv mgr _ w1) as [[[]|e|] w2].
Qed.

(** X11.  Teardown order and the reset.  Without the persistence flag,
    on an adapter that holds a manager, [shutdown] asks for the
    autoscaler to be deleted and then for the deployment, both by the
    deployment's name in the manager's namespace.  When each of the two
    requests is answered with success or with 404, [shutdown] returns
    and [initialized] is reset; nothing else of the adapter changes. *)
Theorem shutdown_tears_down srv self w mgr :
  default false (connection_persistence self) = false ->
  _k8s_manager self = Some mgr ->
  (∀ h rq e, respond srv h rq = Fault e -> e = ApiException 404) ->
  fst (shutdown srv (self, w)) = Returns tt
  ∧ requests (snd (snd (shutdown srv (self, w))))
    = requests w
      ++ [delete_namespaced_horizontal_pod_autoscaler (_deployment_name self) (namespace mgr);
          delete_namespaced_deployment (_deployment_name self) (namespace mgr)]
  ∧ fst (snd (shutdown srv (self, w))) = set_initialized false self.
Proof.
  intros Hkeep Hmgr Hapi. rewrite (shutdown_unfold _ _ _ _ Hkeep Hmgr). cbv zeta.
  rewrite delete_hpa_spec. cbv zeta. cbn [requests clock log].
  pose proof (Hapi (requests w)
                (delete_namespaced_horizontal_pod_autoscaler (_deployment_name self)
                   (namespace mgr))) as H1.
  destruct (respond srv (requests w) _) as [d1 | e1].
  2: rewrite (H1 e1 eq_refl).
  all: cbn [fst snd Z.eqb Pos.eqb].
  all: rewrite delete_deployment_spec; cbv zeta; cbn [requests clock log].
  all: pose proof (Hapi (requests w
                         ++ [delete_namespaced_horizontal_pod_autoscaler
                               (_deployment_name self) (namespace mgr)])
                     (delete_namespaced_deployment (_deployment_name self) (namespace mgr)))
         as H2.
  all: destruct (respond srv (requests w ++ _) _) as [d2 | e2];
    [| rewrite (H2 e2 eq_refl)]; cbn [fst snd Z.eqb Pos.eqb requests].
  all: rewrite <- app_assoc; by split_and!.
Qed.

Lemma shutdown_tears_down_witness :
  fst (shutdown (failing_apiserver 404)
         (set_k8s_manager (Some {| namespace := "default"; kubeconfig := None |})
            (set_initialized true demo_agent), fresh_world)) = Returns tt
  ∧ requests (snd (snd (shutdown (failing_apiserver 404)
         (set_k8s_manager (Some {| namespace := "default"; kubeconfig := None |})
            (set_initialized true demo_agent), fresh_world))))
    = requests fresh_world
      ++ [delete_namespaced_horizontal_pod_autoscaler
            (_deployment_name
               (set_k8s_manager (Some {| namespace := "default"; kubeconfig := None |})
                  (set_initialized true demo_agent)))
            (namespace {| namespace := "default"; kubeconfig := None |});
          delete_namespaced_deployment
            (_deployment_name
               (set_k8s_manager (Some {| namespace := "default"; kubeconfig := None |})
                  (set_initialized true demo_agent)))
            (namespace {| namespace := "default"; kubeconfig := None |})]
  ∧ fst (snd (shutdown (failing_apiserver 404)
         (set_k8s_manager (Some {| namespace := "default"; kubeconfig := None |})
            (set_initialized true demo_agent), fresh_world)))
    = set_initialized false
        (set_k8s_manager (Some {| namespace := "default"; kubeconfig := None |})
           (set_initialized true demo_agent)).
Proof.
  apply (shutdown_tears_down (failing_apiserver 404)
           (set_k8s_manager (Some {| namespace := "default"; kubeconfig := None |})
              (set_initialized true demo_agent))
           fresh_world {| namespace := "default"; kubeconfig := None |});
    [reflexivity | reflexivity |].
  by intros h rq e [= <-].
Defined.

(** X12.  A teardown cut short.  Under the same conditions, whenever
    [shutdown] raises, the adapter is exactly as it was: [initialized]
    has not been reset.  And when the request to delete the autoscaler
    fails with anything but a 404, an API status such as 500 included,
    [shutdown] raises after that one request: the deployment is not asked
    to be deleted. *)
Theorem shutdown_cut_short srv self w mgr :
  default false (connection_persistence self) = false ->
  _k8s_manager self = Some mgr ->
  (∀ e, fst (shutdown srv (self, w)) = Raises e ->
        fst (snd (shutdown srv (self, w))) = self)
  ∧ (∀ e, respond srv (requests w)
            (delete_namespaced_horizontal_pod_autoscaler (_deployment_name self)
               (namespace mgr)) = Fault e ->
          e ≠ ApiException 404 ->
          is_raise (fst (shutdown srv (self, w)))
          ∧ requests (snd (snd (shutdown srv (self, w))))
            = requests w
              ++ [delete_namespaced_horizontal_pod_autoscaler (_deployment_name self)
                    (namespace mgr)]).
Proof.
  intros Hkeep Hmgr. rewrite (shutdown_unfold _ _ _ _ Hkeep Hmgr). cbv zeta.
  split.
  - intros e.
    destruct (fst (delete_hpa srv mgr _ _)) as [[]|e1|]; [| by intros _ | done].
    by destruct (fst (delete_deployment srv mgr _ _)) as [[]|e2|].
  - intros e Hresp Hne. rewrite delete_hpa_spec. cbv zeta. cbn [requests clock log].
    rewrite Hresp. destruct e as [st| | | | | | |]; try by split.
    destruct (st =? 404) eqn:E; [| by split].
    apply Z.eqb_eq in E. by subst.
Qed.

Lemma shutdown_cut_short_witness :
  is_raise (fst (shutdown (failing_apiserver 500)
                   (set_k8s_manager (Some {| namespace := "default"; kubeconfig := None |})
                      (set_initialized true demo_agent), fresh_world)))
  ∧ requests (snd (snd (shutdown (failing_apiserver 500)
         (set_k8s_manager (Some {| namespace := "default"; kubeconfig := None |})
            (set_initialized true demo_agent), fresh_world))))
    = requests fresh_world
      ++ [delete_namespaced_horizontal_pod_autoscaler
            (_deployment_name
               (set_k8s_manager (Some {| namespace := "default"; kubeconfig := None |})
                  (set_initialized true demo_agent)))
            (namespace {| namespace := "default"; kubeconfig := None |})].
Proof.
  apply (proj2 (shutdown_cut_short (failing_apiserver 500)
                  (set_k8s_manager (Some {| namespace := "default"; kubeconfig := None |})
                     (set_initialized true demo_agent))
                  fresh_world {| namespace := "default"; kubeconfig := None |}
                  eq_refl eq_refl) (ApiException 500)); [reflexivity | discriminate].
Defined.

(** X13.  Shutdown of an adapter that never built a manager.  Without the
    persistence flag and without a manager, [shutdown] issues no request,
    builds no manager, resets [initialized] and returns. *)
Theorem shutdown_without_manager srv self w :
  default false (connection_persistence self) = false ->
  _k8s_manager self = None ->
  shutdown srv (self, w)
  = (Returns tt,
     (set_initialized false self,
      {| requests := requests w; clock := clock w;
         log := log w ++ [(INFO, "K8sAgentAdapter shutting down agent %s")] |})).
Proof.
  intros Hkeep Hmgr. unfold shutdown. rewrite bind_get_self.
  unfold bind at 1. rewrite in_world_spec.
  simpl fst. simpl snd. rewrite Hkeep, Hmgr. reflexivity.
Qed.

Lemma shutdown_without_manager_witness :
  shutdown unreachable_apiserver (demo_agent, fresh_world)
  = (Returns tt,
     (set_initialized false demo_agent,
      {| requests := requests fresh_world; clock := clock fresh_world;
         log := log fresh_world ++ [(INFO, "K8sAgentAdapter shutting down agent %s")] |})).
Proof.
  apply (shutdown_without_manager unreachable_apiserver demo_agent fresh_world);
    reflexivity.
Defined.

(** A pod the scan accepts: it has a status whose conditions include
    one of type Ready with status True. *)
Definition ready_pod (p : V1Pod) : Prop :=
  ∃ conds, pod_status p = Some (Some conds) ∧ existsb is_ready conds = true.

(** A pod the scan passes over: it has a status, and no such condition. *)
Definition unready_pod (p : V1Pod) : Prop :=
  ∃ conditions, pod_status p = Some conditions
                ∧ existsb is_ready (default [] conditions) = false.

(** X14.  What the scan of a listing finds.  [scan_pods] stops at a pod
    exactly when that pod is the first one with a Ready condition of
    status True and every pod before it has a status; a pod without
    status ahead of it ends the scan with an [AttributeError] instead, and
    the ready pod behind it goes unseen. *)
Theorem scan_pods_first_ready items p :
  (scan_pods items = Returns (Some p) ↔
   ∃ before after, items = before ++ p :: after
                   ∧ Forall unready_pod before ∧ ready_pod p)
  ∧ (∀ before q after,
       items = before ++ q :: after -> Forall unready_pod before ->
       pod_status q = None -> scan_pods items = Raises AttributeError).
Proof.
  split.
  - split.
    + induction items as [|q items IH]; simpl; [done |].
      destruct (pod_status q) as [conditions|] eqn:Hst; [| done].
      destruct (existsb is_ready (default [] conditions)) eqn:Hready.
      * intros [= <-]. exists [], items. split_and!; [done | constructor |].
        destruct conditions as [conds|]; [by exists conds | done].
      * intros Hrest. destruct (IH Hrest) as (before & after & -> & Hbefore & Hp).
        exists (q :: before), after. split_and!; [done | | done].
        constructor; [by exists conditions | done].
    + intros (before & after & -> & Hbefore & (conds & Hst & Hready)).
      induction Hbefore as [|q before (conditions & Hq & Hnot) _ IH]; simpl.
      * rewrite Hst. simpl. by rewrite Hready.
      * by rewrite Hq, Hnot.
  - intros before q after -> Hbefore Hst.
    induction Hbefore as [|q' before (conditions & Hq & Hnot) _ IH]; simpl.
    + by rewrite Hst.
    + by rewrite Hq, Hnot.
Qed.

(** The polling loop never gets to its [return]: a poll either finds
    nothing or ends in an exception. *)
Lemma wait_loop_never_returns srv start timeout_seconds :
  ∀ fuel self w mgr,
    _k8s_manager self = Some mgr ->
    fst (wait_loop srv fuel start timeout_seconds (self, w)) ≠ Returns tt.
Proof.
  induction fuel as [|fuel IH]; intros self w mgr Hmgr; [done |].
  rewrite wait_loop_unfold. unfold bind at 1. rewrite in_world_spec. simpl.
  destruct (clock w - start >? timeout_seconds); [done |].
  unfold bind at 1. rewrite (poll_spec srv self w mgr Hmgr). cbv zeta.
  destruct (respond srv _ _) as [[d | items |] | e]; try done.
  destruct (scan_pods items) as [[p|] | e |]; try done.
  unfold bind at 1. rewrite in_world_spec. simpl. by eapply IH.
Qed.

(** X15.  [_wait_for_pod_ready] never returns.  Whatever the server
    answers, the adapter and the timeout, the call does not end with a
    normal return.  The only [return] of the loop follows the log call of
    line 258, which hands the logger two values: it raises, inside the
    [try], and the [except] clause of line 260 raises in its turn. *)
Theorem wait_ready_never_returns srv fuel timeout_seconds self w :
  fst (_wait_for_pod_ready srv fuel timeout_seconds (self, w)) ≠ Returns tt.
Proof.
  unfold _wait_for_pod_ready.
  destruct (_k8s_manager self) as [mgr|] eqn:Hmgr.
  - rewrite (bind_returns _ _ _ _ _ (ensure_manager_present srv _ _ mgr Hmgr)).
    unfold bind at 1. rewrite in_world_spec. unfold time at 1 2. cbn [fst snd].
    by eapply wait_loop_never_returns.
  - unfold bind at 1. rewrite (ensure_manager_absent _ _ _ Hmgr).
    destruct (client_config srv); [| done].
    unfold bind at 1. rewrite in_world_spec. unfold time at 1 2. cbn [fst snd].
    by eapply wait_loop_never_returns.
Qed.

(** The first round of the wait, when the deadline has not passed. *)
Lemma wait_for_pod_ready_first_round srv fuel timeout_seconds self w :
  0 ≤ timeout_seconds ->
  client_config srv = true ∨ is_Some (_k8s_manager self) ->
  ∃ self' mgr,
    _k8s_manager self' = Some mgr
    ∧ k8s_namespace self' = k8s_namespace self
    ∧ k8s_labels self' = k8s_labels self
    ∧ _deployment_name self' = _deployment_name self
    ∧ _wait_for_pod_ready srv (S fuel) timeout_seconds (self, w)
      = bind (try_except (poll srv)
                (λ e, bind (in_world (logger srv DEBUG "Waiting for pod ready: %s"
                                        [PyExn e]))
                        (λ _, ret false)))
          (λ found : bool,
             if found then ret tt
             else bind (in_world (sleep 2))
                    (λ _, wait_loop srv fuel (clock w) timeout_seconds)) (self', w).
Proof.
  intros Htimeout Hok.
  destruct (ensure_manager_ok srv self w Hok) as (self' & Hens & Hsame & Hmgr).
  exists self', (default {| namespace := k8s_namespace self; kubeconfig := None |}
                  (_k8s_manager self)).
  split_and!; [exact Hmgr | by rewrite Hsame | by rewrite Hsame | by rewrite Hsame |].
  unfold _wait_for_pod_ready. rewrite (bind_returns _ _ _ _ _ Hens).
  unfold bind at 1. rewrite in_world_spec. unfold time at 1 2. cbn [fst snd].
  rewrite wait_loop_unfold. unfold bind at 1. rewrite in_world_spec.
  unfold time at 1 2. cbn [fst snd].
  by replace (clock w - clock w >? timeout_seconds) with false by lia.
Qed.

(** X16.  A ready pod at the first poll.  With a non-negative timeout,
    fuel for one iteration and a manager at hand or within reach, when
    the first listing is answered with pods among which the scan finds a
    ready one, [_wait_for_pod_ready] does not return: the info log of
    line 258 raises, the [except] clause catches that and its debug log
    raises in turn, and this last exception ends the call, after that
    single request and without sleeping. *)
Theorem wait_ready_first_poll srv fuel timeout_seconds self w items p :
  0 ≤ timeout_seconds -> (1 ≤ fuel)%nat ->
  client_config srv = true ∨ is_Some (_k8s_manager self) ->
  respond srv (requests w)
    (list_namespaced_pod (k8s_namespace self) (label_selector (k8s_labels self)))
  = Reply (ReplyPodList items) ->
  scan_pods items = Returns (Some p) ->
  fst (_wait_for_pod_ready srv fuel timeout_seconds (self, w))
  = Raises (log_fault srv DEBUG
              [PyExn (log_fault srv INFO
                        [PyStr (pod_name p); PyStr (_deployment_name self)])])
  ∧ requests (snd (snd (_wait_for_pod_ready srv fuel timeout_seconds (self, w))))
    = requests w
      ++ [list_namespaced_pod (k8s_namespace self) (label_selector (k8s_labels self))]
  ∧ clock (snd (snd (_wait_for_pod_ready srv fuel timeout_seconds (self, w))))
    = clock w
      + Z.of_N (latency srv (requests w)
                  (list_namespaced_pod (k8s_namespace self)
                     (label_selector (k8s_labels self)))).
Proof.
  intros Htimeout Hfuel Hok Hresp Hscan.
  destruct fuel as [|fuel]; [lia |].
  destruct (wait_for_pod_ready_first_round srv fuel timeout_seconds self w Htimeout Hok)
    as (self' & mgr & Hmgr & Hns & Hlb & Hname & Hrun).
  pose proof (poll_spec srv self' w mgr Hmgr) as Hpoll. cbv zeta in Hpoll.
  rewrite Hns, Hlb, Hname, Hresp, Hscan in Hpoll.
  rewrite Hrun, (bind_raises _ _ _ _ _ Hpoll). by split_and!.
Qed.

Lemma wait_ready_first_poll_witness :
  fst (_wait_for_pod_ready ready_apiserver 1 0 (demo_agent, fresh_world))
  = Raises (log_fault ready_apiserver DEBUG
              [PyExn (log_fault ready_apiserver INFO
                        [PyStr "mcp-agent-k8s-demo-agent-0";
                         PyStr (_deployment_name demo_agent)])])
  ∧ requests (snd (snd (_wait_for_pod_ready ready_apiserver 1 0 (demo_agent, fresh_world))))
    = requests fresh_world
      ++ [list_namespaced_pod (k8s_namespace demo_agent)
            (label_selector (k8s_labels demo_agent))]
  ∧ clock (snd (snd (_wait_for_pod_ready ready_apiserver 1 0 (demo_agent, fresh_world))))
    = clock fresh_world
      + Z.of_N (latency ready_apiserver (requests fresh_world)
                  (list_namespaced_pod (k8s_namespace demo_agent)
                     (label_selector (k8s_labels demo_agent)))).
Proof.
  eapply (wait_ready_first_poll ready_apiserver 1 0 demo_agent fresh_world);
    [lia | lia | by left | reflexivity | reflexivity].
Defined.

(** X17.  A timeout already over.  With a negative timeout, fuel for one
    iteration and a manager at hand or within reach,
    [_wait_for_pod_ready] raises [TimeoutError] before any listing: no
    request is issued and the clock has not moved. *)
Theorem wait_ready_negative_timeout srv fuel timeout_seconds self w :
  timeout_seconds < 0 -> (1 ≤ fuel)%nat ->
  client_config srv = true ∨ is_Some (_k8s_manager self) ->
  fst (_wait_for_pod_ready srv fuel timeout_seconds (self, w))
  = Raises (TimeoutError "Timed out waiting for pod to become ready")
  ∧ snd (snd (_wait_for_pod_ready srv fuel timeout_seconds (self, w))) = w.
Proof.
  intros Htimeout Hfuel Hok.
  destruct (ensure_manager_ok srv self w Hok) as (self' & Hens & _ & _).
  destruct fuel as [|fuel]; [lia |].
  assert (Hrun : _wait_for_pod_ready srv (S fuel) timeout_seconds (self, w)
                 = (Raises (TimeoutError "Timed out waiting for pod to become ready"),
                    (self', w))).
  { unfold _wait_for_pod_ready. rewrite (bind_returns _ _ _ _ _ Hens).
    unfold bind at 1. rewrite in_world_spec. unfold time at 1 2. cbn [fst snd].
    rewrite wait_loop_unfold. unfold bind at 1. rewrite in_world_spec.
    unfold time at 1 2. cbn [fst snd].
    replace (clock w - clock w >? timeout_seconds) with true by lia.
    by destruct w. }
  by rewrite Hrun.
Qed.

Lemma wait_ready_negative_timeout_witness :
  fst (_wait_for_pod_ready ready_apiserver 1 (-1) (demo_agent, fresh_world))
  = Raises (TimeoutError "Timed out waiting for pod to become ready")
  ∧ snd (snd (_wait_for_pod_ready ready_apiserver 1 (-1) (demo_agent, fresh_world)))
    = fresh_world.
Proof.
  apply (wait_ready_negative_timeout ready_apiserver 1 (-1) demo_agent fresh_world);
    [lia | lia | by left].
Defined.

(** X18.  [initialize] changes nothing.  Whatever the server, the fuel
    and [force], [initialize] leaves the adapter and the world as it
    found them: no request, no log line, [initialized] as it was.  It
    returns exactly on the guard, for an adapter already initialized and
    [force] false; past the guard it raises at its first statement, the
    log call of line 204 with its two values, before the manager is
    built or anything is asked of the server. *)
Theorem initialize_changes_nothing srv fuel force self w :
  snd (initialize srv fuel force (self, w)) = (self, w)
  ∧ (fst (initialize srv fuel force (self, w)) = Returns tt
     ↔ initialized self = true ∧ force = false)
  ∧ (initialized self && negb force = false ->
     fst (initialize srv fuel force (self, w))
     = Raises (log_fault srv INFO [PyStr (name self); PyStr (_deployment_name self)])).
Proof.
  destruct (initialized self && negb force) eqn:Hguard.
  - assert (Hrun : initialize srv fuel force (self, w) = (Returns tt, (self, w))).
    { unfold initialize. by rewrite bind_get_self, Hguard. }
    rewrite Hrun. split_and!; [done | | done].
    split; [intros _ | done]. by destruct (initialized self), force.
  - rewrite (initialize_past_guard _ _ _ _ _ Hguard). split_and!; [done | | done].
    split; [done |]. intros [Hi ->]. rewrite Hi in Hguard. discriminate.
Qed.

(** [enable_autoscale] with a manager at hand or within reach. *)
Lemma enable_autoscale_run srv lo hi cpu self w :
  client_config srv = true ∨ is_Some (_k8s_manager self) ->
  let mgr := default {| namespace := k8s_namespace self; kubeconfig := None |}
               (_k8s_manager self) in
  let r := create_hpa srv mgr (_deployment_name self) lo hi cpu w in
  enable_autoscale srv lo hi cpu (self, w)
  = (fst r, (set_k8s_manager (Some mgr) (set_autoscale lo hi cpu self), snd r)).
Proof.
  intros Hok. cbv zeta. unfold enable_autoscale. unfold bind at 1. simpl.
  destruct (ensure_manager_ok srv (set_autoscale lo hi cpu self) w Hok)
    as (self' & Hens & Hsame & Hmgr).
  simpl in Hmgr, Hsame. rewrite Hmgr in Hsame.
  rewrite (bind_returns _ _ _ _ _ Hens), bind_get_self.
  rewrite (bind_returns _ _ _ _ _ (the_manager_some _ _ _ Hmgr)).
  unfold run_in_executor. rewrite in_world_spec.
  assert (Hname : _deployment_name self' = _deployment_name self) by (by rewrite Hsame).
  by rewrite Hname, <- Hsame.
Qed.

(** X19.  [enable_autoscale] stores before it calls.  Whatever the
    outcome, the adapter leaves [enable_autoscale] with autoscaling
    switched on and with the bounds and the CPU target it was given.  With
    a manager at hand or within reach, exactly one request is issued, the
    creation of an autoscaler with those bounds and that target for the
    adapter's deployment, and the call raises exactly when that request
    fails otherwise than with status 409, and returns if not. *)
Theorem enable_autoscale_stores_first srv lo hi cpu self w :
  let r := enable_autoscale srv lo hi cpu (self, w) in
  let rq := create_namespaced_horizontal_pod_autoscaler (manager_namespace self)
              (build_hpa (_deployment_name self) lo hi cpu) in
  (k8s_autoscale (fst (snd r)) = true
   ∧ k8s_hpa_min_replicas (fst (snd r)) = lo
   ∧ k8s_hpa_max_replicas (fst (snd r)) = hi
   ∧ k8s_hpa_cpu (fst (snd r)) = Some cpu)
  ∧ (client_config srv = true ∨ is_Some (_k8s_manager self) ->
     requests (snd (snd r)) = requests w ++ [rq]
     ∧ (is_raise (fst r) ↔ ∃ e, respond srv (requests w) rq = Fault e ∧ e ≠ ApiException 409)
     ∧ (¬ is_raise (fst r) -> fst r = Returns tt)).
Proof.
  cbv zeta. split.
  - assert (Hstable : stable (set_autoscale lo hi cpu self)
                        (fst (snd (enable_autoscale srv lo hi cpu (self, w))))).
    { unfold enable_autoscale. unfold bind at 1. simpl.
      match goal with |- stable _ (fst (snd ?run)) => destruct run as [o st'] eqn:Hrun end.
      revert Hrun. apply frames_bind; [apply frames_ensure_manager |]. intros _.
      apply frames_bind; [apply frames_get_self |]. intros self1.
      apply frames_bind; [apply frames_the_manager |]. intros mgr.
      apply frames_in_world. }
    unfold stable in Hstable. rewrite Hstable. by split_and!.
  - intros Hok. rewrite (enable_autoscale_run _ _ _ _ _ _ Hok). cbv zeta. cbn [fst snd].
    assert (Hns : namespace (default {| namespace := k8s_namespace self; kubeconfig := None |}
                               (_k8s_manager self)) = manager_namespace self)
      by (unfold manager_namespace; by destruct (_k8s_manager self)).
    destruct (create_hpa_outcome srv
                (default {| namespace := k8s_namespace self; kubeconfig := None |}
                   (_k8s_manager self)) (_deployment_name self) lo hi cpu w)
      as (Hiff & Hret & _ & _).
    cbv zeta in Hiff, Hret. rewrite Hns in Hiff.
    split_and!; [| exact Hiff | exact Hret].
    rewrite create_hpa_spec. cbv zeta. cbn [snd requests]. by rewrite Hns.
Qed.

(** X20.  A failed poll ends the wait.  With a non-negative timeout,
    fuel for one iteration and a manager at hand or within reach, when
    the first listing fails, with an [ApiException] or with anything
    else, the failure is neither swallowed nor retried: the [except]
    clause of line 260 hands the exception to the logger where the name
    of the event goes, that call raises, and its exception ends
    [_wait_for_pod_ready] after that single request. *)
Theorem wait_ready_failed_poll srv fuel timeout_seconds self w e :
  0 ≤ timeout_seconds -> (1 ≤ fuel)%nat ->
  client_config srv = true ∨ is_Some (_k8s_manager self) ->
  respond srv (requests w)
    (list_namespaced_pod (k8s_namespace self) (label_selector (k8s_labels self)))
  = Fault e ->
  fst (_wait_for_pod_ready srv fuel timeout_seconds (self, w))
  = Raises (log_fault srv DEBUG [PyExn e])
  ∧ requests (snd (snd (_wait_for_pod_ready srv fuel timeout_seconds (self, w))))
    = requests w
      ++ [list_namespaced_pod (k8s_namespace self) (label_selector (k8s_labels self))].
Proof.
  intros Htimeout Hfuel Hok Hresp.
  destruct fuel as [|fuel]; [lia |].
  destruct (wait_for_pod_ready_first_round srv fuel timeout_seconds self w Htimeout Hok)
    as (self' & mgr & Hmgr & Hns & Hlb & Hname & Hrun).
  pose proof (poll_spec srv self' w mgr Hmgr) as Hpoll. cbv zeta in Hpoll.
  rewrite Hns, Hlb, Hresp in Hpoll.
  rewrite Hrun, (bind_raises _ _ _ _ _ Hpoll). by split.
Qed.

Lemma wait_ready_failed_poll_witness :
  fst (_wait_for_pod_ready (failing_apiserver 500) 1 120 (demo_agent, fresh_world))
  = Raises (log_fault (failing_apiserver 500) DEBUG [PyExn (ApiException 500)])
  ∧ requests (snd (snd (_wait_for_pod_ready (failing_apiserver 500) 1 120
                          (demo_agent, fresh_world))))
    = requests fresh_world
      ++ [list_namespaced_pod (k8s_namespace demo_agent)
            (label_selector (k8s_labels demo_agent))].
Proof.
  apply (wait_ready_failed_poll (failing_apiserver 500) 1 120 demo_agent fresh_world);
    [lia | lia | by left | reflexivity].
Defined.

(** The requests of the loop: pod listings only, one per round, and two
    seconds of sleep between rounds. *)
Lemma wait_loop_budget srv start timeout_seconds :
  ∀ fuel self w mgr,
    _k8s_manager self = Some mgr ->
    ∃ n, requests (snd (snd (wait_loop srv fuel start timeout_seconds (self, w))))
         = requests w
           ++ replicate n (list_namespaced_pod (k8s_namespace self)
                             (label_selector (k8s_labels self)))
         ∧ 2 * Z.of_nat n ≤ Z.max 0 (timeout_seconds - (clock w - start) + 2).
Proof.
  induction fuel as [|fuel IH]; intros self w mgr Hmgr.
  { exists 0%nat. simpl. rewrite app_nil_r. split; [done | lia]. }
  rewrite wait_loop_unfold. unfold bind at 1. rewrite in_world_spec. simpl.
  destruct (clock w - start >? timeout_seconds) eqn:Hlate.
  { exists 0%nat. simpl. rewrite app_nil_r. split; [done | lia]. }
  assert (Hin : clock w - start ≤ timeout_seconds) by lia.
  unfold bind at 1. rewrite (poll_spec srv self w mgr Hmgr). cbv zeta.
  set (rq := list_namespaced_pod (k8s_namespace self) (label_selector (k8s_labels self))).
  assert (Hone : ∀ o : outcome unit,
            ∃ n, requests (snd (snd (o, (self,
                     {| requests := requests w ++ [rq];
                        clock := clock w + Z.of_N (latency srv (requests w) rq);
                        log := log w |}))))
                 = requests w ++ replicate n rq
                 ∧ 2 * Z.of_nat n ≤ Z.max 0 (timeout_seconds - (clock w - start) + 2)).
  { intros o. exists 1%nat. split; [done | lia]. }
  destruct (respond srv (requests w) rq) as [[d | items |] | e]; try apply Hone.
  destruct (scan_pods items) as [[p|] | e |]; try apply Hone.
  unfold bind at 1. rewrite in_world_spec. simpl.
  destruct (IH self {| requests := requests w ++ [rq];
                       clock := clock w + Z.of_N (latency srv (requests w) rq) + 2;
                       log := log w |} mgr Hmgr) as (n & Hreq & Hn).
  simpl in Hreq, Hn. exists (S n). split.
  - rewrite Hreq. by rewrite <- app_assoc.
  - lia.
Qed.

(** X21.  The load [_wait_for_pod_ready] puts on the API server.
    Whatever the server answers and however the wait ends, it keeps the
    requests issued before and adds only listings of the pods that match
    the adapter's labels in its namespace, at most
    [timeout_seconds / 2 + 1] of them, and none when that bound is
    negative. *)
Theorem wait_ready_request_budget srv fuel timeout_seconds self w :
  ∃ n, requests (snd (snd (_wait_for_pod_ready srv fuel timeout_seconds (self, w))))
       = requests w
         ++ replicate n (list_namespaced_pod (k8s_namespace self)
                           (label_selector (k8s_labels self)))
       ∧ 2 * Z.of_nat n ≤ Z.max 0 (timeout_seconds + 2).
Proof.
  unfold _wait_for_pod_ready.
  assert (Hloop : ∀ self1 mgr,
            _k8s_manager self1 = Some mgr ->
            k8s_namespace self1 = k8s_namespace self ->
            k8s_labels self1 = k8s_labels self ->
            ∃ n, requests (snd (snd (bind (in_world time)
                                       (λ start, wait_loop srv fuel start timeout_seconds)
                                       (self1, w))))
                 = requests w
                   ++ replicate n (list_namespaced_pod (k8s_namespace self)
                                     (label_selector (k8s_labels self)))
                 ∧ 2 * Z.of_nat n ≤ Z.max 0 (timeout_seconds + 2)).
  { intros self1 mgr Hmgr Hns Hlb.
    unfold bind at 1. rewrite in_world_spec. unfold time at 1 2. cbn [fst snd].
    destruct (wait_loop_budget srv (clock w) timeout_seconds fuel self1 w mgr Hmgr)
      as (n & Hreq & Hn).
    exists n. rewrite Hreq, Hns, Hlb. split; [done | lia]. }
  destruct (_k8s_manager self) as [mgr|] eqn:Hmgr.
  - rewrite (bind_returns _ _ _ _ _ (ensure_manager_present srv _ _ mgr Hmgr)).
    by eapply Hloop.
  - unfold bind at 1. rewrite (ensure_manager_absent _ _ _ Hmgr).
    destruct (client_config srv).
    + by eapply Hloop.
    + exists 0%nat. simpl. rewrite app_nil_r. split; [done | lia].
Qed.

(** What the two delete requests do to the store of the well-behaved
    server. *)
Lemma handle_delete_hpa name ns c :
  let rq := delete_namespaced_horizontal_pod_autoscaler name ns in
  (fst (handle rq c) = Reply ReplyStatus ∨ fst (handle rq c) = Fault (ApiException 404))
  ∧ deployments (snd (handle rq c)) = deployments c
  ∧ autoscalers (snd (handle rq c)) = delete (ns, name) (autoscalers c).
Proof.
  cbv zeta. simpl. destruct (autoscalers c !! (ns, name)) eqn:Hl; simpl.
  - split_and!; [by left | done | done].
  - split_and!; [by right | done | by rewrite delete_id].
Qed.

Lemma handle_delete_deployment name ns c :
  let rq := delete_namespaced_deployment name ns in
  (fst (handle rq c) = Reply ReplyStatus ∨ fst (handle rq c) = Fault (ApiException 404))
  ∧ deployments (snd (handle rq c)) = delete (ns, name) (deployments c)
  ∧ autoscalers (snd (handle rq c)) = autoscalers c.
Proof.
  cbv zeta. simpl. destruct (deployments c !! (ns, name)) eqn:Hl; simpl.
  - split_and!; [by left | done | done].
  - split_and!; [by right | by rewrite delete_id | done].
Qed.

(** X22.  Teardown on the well-behaved server.  Without the persistence
    flag, on an adapter that holds a manager, [shutdown] against a
    server that behaves as a store (success for what is there, 404 for
    what is not) always returns and resets [initialized]; afterwards the
    store holds neither a deployment nor an autoscaler under the
    deployment's name in the manager's namespace, whether or not it held
    them before, and everything else in it is as it was. *)
Theorem shutdown_clears_store init self w mgr :
  default false (connection_persistence self) = false ->
  _k8s_manager self = Some mgr ->
  let key := (namespace mgr, _deployment_name self) in
  let r := shutdown (kube_apiserver init) (self, w) in
  fst r = Returns tt
  ∧ initialized (fst (snd r)) = false
  ∧ deployments (replay (requests (snd (snd r))) init)
    = delete key (deployments (replay (requests w) init))
  ∧ autoscalers (replay (requests (snd (snd r))) init)
    = delete key (autoscalers (replay (requests w) init)).
Proof.
  intros Hkeep Hmgr. cbv zeta.
  set (c0 := replay (requests w) init).
  set (dhpa := delete_namespaced_horizontal_pod_autoscaler (_deployment_name self)
                 (namespace mgr)).
  set (ddep := delete_namespaced_deployment (_deployment_name self) (namespace mgr)).
  destruct (handle_delete_hpa (_deployment_name self) (namespace mgr) c0)
    as (Hr1 & Hd1 & Ha1).
  destruct (handle_delete_deployment (_deployment_name self) (namespace mgr)
              (snd (handle dhpa c0))) as (Hr2 & Hd2 & Ha2).
  cbv zeta in Hr1, Hd1, Ha1, Hr2, Hd2, Ha2. fold dhpa in Hr1, Hd1, Ha1. fold ddep in Hr2, Hd2, Ha2.
  assert (Hshut : ∃ w2,
            shutdown (kube_apiserver init) (self, w)
            = (Returns tt, (set_initialized false self, w2))
            ∧ requests w2 = (requests w ++ [dhpa]) ++ [ddep]).
  { rewrite (shutdown_unfold _ _ _ mgr Hkeep Hmgr). cbv zeta.
    rewrite delete_hpa_spec. cbv zeta. cbn [fst snd requests clock log].
    rewrite respond_kube_apiserver. fold c0 dhpa.
    destruct Hr1 as [-> | ->]; cbn [fst snd Z.eqb Pos.eqb];
      rewrite delete_deployment_spec; cbv zeta; cbn [fst snd requests clock log];
      rewrite respond_kube_apiserver, replay_snoc; fold c0 dhpa ddep;
      destruct Hr2 as [-> | ->]; cbn [fst snd Z.eqb Pos.eqb]; by eexists. }
  destruct Hshut as (w2 & -> & Hreq2). cbn [fst snd].
  rewrite Hreq2, !replay_snoc. fold c0 dhpa ddep.
  split_and!; [done | done | by rewrite Hd2, Hd1 | by rewrite Ha2, Ha1].
Qed.

Lemma shutdown_clears_store_witness :
  let self := set_k8s_manager (Some {| namespace := "default"; kubeconfig := None |})
                demo_agent in
  let r := shutdown (kube_apiserver empty_cluster) (self, provisioned_world) in
  is_Some (deployments (replay (requests provisioned_world) empty_cluster)
             !! ("default", _deployment_name self))
  ∧ fst r = Returns tt
  ∧ initialized (fst (snd r)) = false
  ∧ deployments (replay (requests (snd (snd r))) empty_cluster)
    = delete ("default", _deployment_name self)
        (deployments (replay (requests provisioned_world) empty_cluster))
  ∧ autoscalers (replay (requests (snd (snd r))) empty_cluster)
    = delete ("default", _deployment_name self)
        (autoscalers (replay (requests provisioned_world) empty_cluster)).
Proof.
  split; [by eexists |].
  apply (shutdown_clears_store empty_cluster
           (set_k8s_manager (Some {| namespace := "default"; kubeconfig := None |}) demo_agent)
           provisioned_world {| namespace := "default"; kubeconfig := None |});
    reflexivity.
Defined.

(** X23.  Without a client configuration nothing reaches the server.
    When no client configuration can be loaded and the adapter holds no
    manager, [scale], [_wait_for_pod_ready] and [enable_autoscale] each
    raise [RuntimeError] without issuing a request.  The first two leave
    the adapter as it was; [enable_autoscale] has stored its arguments by
    then. *)
Theorem no_client_no_request srv fuel n lo hi cpu timeout_seconds self w :
  client_config srv = false ->
  _k8s_manager self = None ->
  let fails (r : outcome unit * state) (self' : K8sAgentAdapter) :=
    (∃ msg, fst r = Raises (RuntimeError msg))
    ∧ fst (snd r) = self'
    ∧ requests (snd (snd r)) = requests w in
  fails (scale srv n (self, w)) self
  ∧ fails (_wait_for_pod_ready srv fuel timeout_seconds (self, w)) self
  ∧ fails (enable_autoscale srv lo hi cpu (self, w)) (set_autoscale lo hi cpu self).
Proof.
  intros Hcfg Hmgr. cbv beta zeta.
  assert (Hens : ∀ self0 w0, _k8s_manager self0 = None ->
            ∃ msg, _ensure_k8s_manager srv (self0, w0)
                   = (Raises (RuntimeError msg), (self0, w0))).
  { intros self0 w0 Hnone. rewrite (ensure_manager_absent _ _ _ Hnone), Hcfg. by eexists. }
  split; [| split].
  - destruct (Hens self w Hmgr) as (msg & Hrun). unfold scale.
    rewrite (bind_raises _ _ _ _ _ Hrun). split_and!; [by eexists | done | done].
  - destruct (Hens self w Hmgr) as (msg & Hrun). unfold _wait_for_pod_ready.
    rewrite (bind_raises _ _ _ _ _ Hrun). split_and!; [by eexists | done | done].
  - destruct (Hens (set_autoscale lo hi cpu self) w Hmgr) as (msg & Hrun).
    assert (Hall : enable_autoscale srv lo hi cpu (self, w)
                   = (Raises (RuntimeError msg), (set_autoscale lo hi cpu self, w))).
    { unfold enable_autoscale. unfold bind at 1. cbn [assign fst snd].
      by rewrite (bind_raises _ _ _ _ _ Hrun). }
    rewrite Hall. split_and!; [by eexists | done | done].
Qed.

Lemma no_client_no_request_witness :
  let srv := unconfigured_apiserver in
  let fails (r : outcome unit * state) (self' : K8sAgentAdapter) :=
    (∃ msg, fst r = Raises (RuntimeError msg))
    ∧ fst (snd r) = self'
    ∧ requests (snd (snd r)) = requests fresh_world in
  fails (scale srv 3 (demo_agent, fresh_world)) demo_agent
  ∧ fails (_wait_for_pod_ready srv 1 120 (demo_agent, fresh_world)) demo_agent
  ∧ fails (enable_autoscale srv 2 5 50 (demo_agent, fresh_world))
      (set_autoscale 2 5 50 demo_agent).
Proof.
  apply (no_client_no_request unconfigured_apiserver 1 3 2 5 50 120
           demo_agent fresh_world); reflexivity.
Defined.

End K8sExtra.
